(** * UCIC smart contracts: token ledger, DAO registry and verification oracle

    A shallow embedding of
    [qubic-hackathon/smart-contracts/src/UCTokenContract.cpp],
    [UCICDaoContract.cpp], [OracleContract.cpp] and [include/types.h],
    with the properties of the specification stated over it.

    Conventions.
    - Unsigned machine integers are [Z] values with the wrap-around written
      out ([u64], [u32], [u8]).
    - [std::map] is [gmap]; [operator[]] on a missing key reads the
      default-constructed value, exactly as in C++.
    - [std::time(nullptr)] is an injected clock: every operation that reads
      the clock takes the current time [now] as an argument (one reading per
      call).
    - A [shared_ptr] to another contract is a field holding that contract's
      state: the oracle state contains the DAO state, which contains the
      token state, so that all three are one store. *)

From stdpp Require Import gmap strings list fin_maps pretty sorting.
From Stdlib Require Import ZArith Lia.

Local Open Scope Z_scope.

(** ** Machine integers *)

Definition two64 : Z := Eval cbv in 2 ^ 64.
Definition two32 : Z := Eval cbv in 2 ^ 32.
Definition two8 : Z := Eval cbv in 2 ^ 8.

Definition u64 (z : Z) : Z := z mod two64.
Definition u32 (z : Z) : Z := z mod two32.
Definition u8 (z : Z) : Z := z mod two8.

(** [std::to_string] on an unsigned integer: its decimal digits. *)
Definition to_string (z : Z) : string := pretty (Z.to_N z).

(** ** [types.h] *)

Definition UC_TOKEN_SUPPLY : Z := 1000.
Definition UC_UNIT : Z := 100000000.
Definition UC_TO_UNITS (uc : Z) : Z := u64 (uc * UC_UNIT).

Inductive ContributorTier := RECOGNIZED | SILVER | GOLD | PLATINUM | FOUNDER.

Definition tier_index (t : ContributorTier) : Z :=
  match t with
  | RECOGNIZED => 0 | SILVER => 1 | GOLD => 2 | PLATINUM => 3 | FOUNDER => 4
  end.

Definition VOTING_POWER (t : ContributorTier) : Z :=
  match t with
  | RECOGNIZED => 1 | SILVER => 2 | GOLD => 3 | PLATINUM => 4 | FOUNDER => 5
  end.

Definition MONTHLY_REWARD_POOL : Z := 30.

Definition REWARD_DISTRIBUTION (t : ContributorTier) : Z :=
  match t with
  | RECOGNIZED => 20 | SILVER => 20 | GOLD => 30 | PLATINUM => 40
  | FOUNDER => 100
  end.

Inductive VerificationLevel := UNVERIFIED | BASIC | ADVANCED | AUDIT_COMPLETE.

Definition level_index (l : VerificationLevel) : Z :=
  match l with
  | UNVERIFIED => 0 | BASIC => 1 | ADVANCED => 2 | AUDIT_COMPLETE => 3
  end.

Inductive ScoreCategory :=
  CODE_QUALITY | DOCUMENTATION | TESTING | INNOVATION | COMMUNITY_IMPACT.

Definition category_index (c : ScoreCategory) : nat :=
  match c with
  | CODE_QUALITY => 0 | DOCUMENTATION => 1 | TESTING => 2 | INNOVATION => 3
  | COMMUNITY_IMPACT => 4
  end%nat.

Definition MAX_CATEGORY_SCORE : Z := 100.
Definition PROPOSAL_VOTING_PERIOD_HOURS : Z := 72.

Inductive ProposalStatus :=
  PENDING | ACTIVE | PASSED | FAILED | EXECUTED | CANCELLED.

Inductive VoteType := FOR | AGAINST | ABSTAIN.

#[global] Instance ContributorTier_eq_dec : EqDecision ContributorTier.
Proof. solve_decision. Defined.
#[global] Instance VerificationLevel_eq_dec : EqDecision VerificationLevel.
Proof. solve_decision. Defined.
#[global] Instance ProposalStatus_eq_dec : EqDecision ProposalStatus.
Proof. solve_decision. Defined.
#[global] Instance VoteType_eq_dec : EqDecision VoteType.
Proof. solve_decision. Defined.

Record CategoryScore := mkCategoryScore {
  category : ScoreCategory;
  score : Z;                      (* uint8 *)
  evidence : string;
  cs_submittedAt : Z
}.

(** [isValidAddress] / [UCTokenContract::validateAddress] *)
Definition isValidAddress (addr : string) : bool :=
  negb (String.eqb addr "") && (String.length addr <=? 256)%nat.

(** [isValidScore] *)
Definition isValidScore (s : Z) : bool := (0 <=? s) && (s <=? MAX_CATEGORY_SCORE).

(** [calculateCompositeScore]: the operands are promoted to [int]; the sum is
    at most 255 * 100 and cannot overflow. *)
Definition calculateCompositeScore (cq doc test innov comm : Z) : Z :=
  u32 ((cq * 25 + doc * 20 + test * 20 + innov * 20 + comm * 15) / 100).

(** ** UCTokenContract *)

Module Token.

Record Account := mkAccount {
  address : string;
  balance : Z;                    (* uint64 *)
  nonce : Z;                      (* uint64 *)
  createdAt : Z
}.

(** [Account()] and [Account(addr)] *)
Definition Account_default : Account := mkAccount "" 0 0 0.
Definition Account_new (addr : string) (now : Z) : Account :=
  mkAccount addr 0 0 now.

Record State := mkState {
  accounts : gmap string Account;
  allowances : gmap (string * string) Z;
  transactionHistories : gmap string (list string);
  totalSupply : Z;
  treasuryBalance : Z;
  transactionCount : Z
}.

Definition treasuryAddress : string := "__TREASURY__".

(** The constructor. *)
Definition init (now : Z) : State :=
  let supply := u64 (UC_TOKEN_SUPPLY * UC_UNIT) in
  {| accounts :=
       {[ treasuryAddress := mkAccount treasuryAddress supply 0 now ]};
     allowances := ∅;
     transactionHistories := ∅;
     totalSupply := supply;
     treasuryBalance := supply;
     transactionCount := 0 |}.

(** [accounts[a]] read through [operator[]]. *)
Definition account_at (m : gmap string Account) (a : string) : Account :=
  default Account_default (m !! a).

Definition balanceOf (s : State) (a : string) : Z :=
  match accounts s !! a with Some acc => balance acc | None => 0 end.

Definition allowance (s : State) (owner spender : string) : Z :=
  match allowances s !! (owner, spender) with Some v => v | None => 0 end.

Definition validateAmount (s : State) (amount : Z) : bool :=
  (0 <? amount) && (amount <=? totalSupply s).

Definition validateAddress (addr : string) : bool := isValidAddress addr.

(** "Register recipient if not exists" *)
Definition ensure_account (now : Z) (a : string) (m : gmap string Account)
  : gmap string Account :=
  match m !! a with
  | Some _ => m
  | None => <[a := Account_new a now]> m
  end.

(** [accounts[a].balance = f (accounts[a].balance)] *)
Definition update_balance (f : Z → Z) (a : string) (m : gmap string Account)
  : gmap string Account :=
  let acc := account_at m a in
  <[a := mkAccount (address acc) (f (balance acc)) (nonce acc) (createdAt acc)]> m.

(** [accounts[a].nonce++] *)
Definition bump_nonce (a : string) (m : gmap string Account)
  : gmap string Account :=
  let acc := account_at m a in
  <[a := mkAccount (address acc) (balance acc) (u64 (nonce acc + 1)) (createdAt acc)]> m.

Definition push_history (a : string) (tx : string)
    (h : gmap string (list string)) : gmap string (list string) :=
  <[a := default [] (h !! a) ++ [tx]]> h.

(** [recordTransaction] *)
Definition recordTransaction (from to : string) (tx : string)
    (h : gmap string (list string)) : gmap string (list string) :=
  push_history to tx (push_history from tx h).

Definition transfer (recipient : string) (amount : Z) (now : Z) (s : State)
  : bool * State :=
  if negb (validateAddress recipient) || negb (validateAmount s amount)
  then (false, s)
  else match accounts s !! treasuryAddress with
  | None => (false, s)
  | Some t =>
    if balance t <? amount then (false, s) else
    let m0 := ensure_account now recipient (accounts s) in
    let m1 := update_balance (λ b, u64 (b - amount)) treasuryAddress m0 in
    let m2 := update_balance (λ b, u64 (b + amount)) recipient m1 in
    let m3 := bump_nonce treasuryAddress m2 in
    let tx := "tx_" +:+ to_string (transactionCount s) in
    (true,
     {| accounts := m3;
        allowances := allowances s;
        transactionHistories :=
          recordTransaction treasuryAddress recipient tx (transactionHistories s);
        totalSupply := totalSupply s;
        treasuryBalance := treasuryBalance s;
        transactionCount := u64 (transactionCount s + 1) |})
  end.

Definition transferFrom (owner recipient : string) (amount : Z) (now : Z)
    (s : State) : bool * State :=
  if negb (validateAddress owner) || negb (validateAddress recipient)
     || negb (validateAmount s amount)
  then (false, s)
  else if allowance s owner recipient <? amount then (false, s)
  else match accounts s !! owner with
  | None => (false, s)
  | Some o =>
    if balance o <? amount then (false, s) else
    let m0 := ensure_account now recipient (accounts s) in
    let m1 := update_balance (λ b, u64 (b - amount)) owner m0 in
    let m2 := update_balance (λ b, u64 (b + amount)) recipient m1 in
    let m3 := bump_nonce owner m2 in
    let al := default 0 (allowances s !! (owner, recipient)) in
    let tx := "tx_" +:+ to_string (transactionCount s) in
    (true,
     {| accounts := m3;
        allowances := <[(owner, recipient) := u64 (al - amount)]> (allowances s);
        transactionHistories :=
          recordTransaction owner recipient tx (transactionHistories s);
        totalSupply := totalSupply s;
        treasuryBalance := treasuryBalance s;
        transactionCount := u64 (transactionCount s + 1) |})
  end.

Definition set_allowances (al : gmap (string * string) Z) (s : State) : State :=
  {| accounts := accounts s;
     allowances := al;
     transactionHistories := transactionHistories s;
     totalSupply := totalSupply s;
     treasuryBalance := treasuryBalance s;
     transactionCount := transactionCount s |}.

Definition approve (spender : string) (amount : Z) (s : State) : bool * State :=
  if negb (validateAddress spender) || negb (validateAmount s amount)
  then (false, s)
  else (true, set_allowances
                (<[(treasuryAddress, spender) := amount]> (allowances s)) s).

Definition increaseAllowance (spender : string) (addedValue : Z) (s : State)
  : bool * State :=
  if negb (validateAddress spender) || negb (validateAmount s addedValue)
  then (false, s)
  else
    let current := allowance s treasuryAddress spender in
    (true, set_allowances
             (<[(treasuryAddress, spender) := u64 (current + addedValue)]>
                (allowances s)) s).

Definition decreaseAllowance (spender : string) (subtractedValue : Z)
    (s : State) : bool * State :=
  if negb (validateAddress spender) || negb (validateAmount s subtractedValue)
  then (false, s)
  else
    let current := allowance s treasuryAddress spender in
    if current <? subtractedValue then (false, s)
    else
      (true, set_allowances
               (<[(treasuryAddress, spender) := u64 (current - subtractedValue)]>
                  (allowances s)) s).

Definition mint (account : string) (amount : Z) (now : Z) (s : State)
  : bool * State :=
  if negb (validateAddress account) || negb (validateAmount s amount)
  then (false, s)
  else
    let m0 := ensure_account now account (accounts s) in
    let m1 := update_balance (λ b, u64 (b + amount)) account m0 in
    let tx := "mint_" +:+ to_string (transactionCount s) in
    (true,
     {| accounts := m1;
        allowances := allowances s;
        transactionHistories :=
          recordTransaction "__MINT__" account tx (transactionHistories s);
        totalSupply := u64 (totalSupply s + amount);
        treasuryBalance := treasuryBalance s;
        transactionCount := u64 (transactionCount s + 1) |}).

Definition burn (account : string) (amount : Z) (s : State) : bool * State :=
  if negb (validateAddress account) || negb (validateAmount s amount)
  then (false, s)
  else match accounts s !! account with
  | None => (false, s)
  | Some a =>
    if balance a <? amount then (false, s) else
    let m1 := update_balance (λ b, u64 (b - amount)) account (accounts s) in
    let tx := "burn_" +:+ to_string (transactionCount s) in
    (true,
     {| accounts := m1;
        allowances := allowances s;
        transactionHistories :=
          recordTransaction account "__BURN__" tx (transactionHistories s);
        totalSupply := u64 (totalSupply s - amount);
        treasuryBalance := treasuryBalance s;
        transactionCount := u64 (transactionCount s + 1) |})
  end.

Definition distributeReward (recipient : string) (amount : Z) (now : Z)
    (s : State) : bool * State :=
  if negb (validateAddress recipient) || negb (validateAmount s amount)
     || (treasuryBalance s <? amount)
  then (false, s)
  else
    let m0 := ensure_account now recipient (accounts s) in
    let m1 := update_balance (λ b, u64 (b - amount)) treasuryAddress m0 in
    let m2 := update_balance (λ b, u64 (b + amount)) recipient m1 in
    let tx := "reward_" +:+ to_string (transactionCount s) in
    (true,
     {| accounts := m2;
        allowances := allowances s;
        transactionHistories :=
          recordTransaction treasuryAddress recipient tx (transactionHistories s);
        totalSupply := totalSupply s;
        treasuryBalance := u64 (treasuryBalance s - amount);
        transactionCount := u64 (transactionCount s + 1) |}).

Definition treasuryWithdraw (recipient : string) (amount : Z) (now : Z)
    (s : State) : bool * State :=
  if negb (validateAddress recipient) || negb (validateAmount s amount)
     || (treasuryBalance s <? amount)
  then (false, s)
  else
    let m0 := update_balance (λ b, u64 (b - amount)) treasuryAddress (accounts s) in
    let m1 := ensure_account now recipient m0 in
    let m2 := update_balance (λ b, u64 (b + amount)) recipient m1 in
    let tx := "withdraw_" +:+ to_string (transactionCount s) in
    (true,
     {| accounts := m2;
        allowances := allowances s;
        transactionHistories :=
          recordTransaction treasuryAddress recipient tx (transactionHistories s);
        totalSupply := totalSupply s;
        treasuryBalance := u64 (treasuryBalance s - amount);
        transactionCount := u64 (transactionCount s + 1) |}).

Definition treasuryDeposit (contributor : string) (amount : Z) (s : State)
  : bool * State :=
  if negb (validateAddress contributor) || negb (validateAmount s amount)
  then (false, s)
  else match accounts s !! contributor with
  | None => (false, s)
  | Some c =>
    if balance c <? amount then (false, s) else
    let m1 := update_balance (λ b, u64 (b - amount)) contributor (accounts s) in
    let m2 := update_balance (λ b, u64 (b + amount)) treasuryAddress m1 in
    let tx := "deposit_" +:+ to_string (transactionCount s) in
    (true,
     {| accounts := m2;
        allowances := allowances s;
        transactionHistories :=
          recordTransaction contributor treasuryAddress tx (transactionHistories s);
        totalSupply := totalSupply s;
        treasuryBalance := u64 (treasuryBalance s + amount);
        transactionCount := u64 (transactionCount s + 1) |})
  end.

Definition registerAccount (account : string) (now : Z) (s : State)
  : bool * State :=
  if negb (validateAddress account) then (false, s)
  else match accounts s !! account with
  | Some _ => (false, s)
  | None =>
    (true,
     {| accounts := <[account := Account_new account now]> (accounts s);
        allowances := allowances s;
        transactionHistories := transactionHistories s;
        totalSupply := totalSupply s;
        treasuryBalance := treasuryBalance s;
        transactionCount := transactionCount s |})
  end.

(** [verifyIntegrity]: the loop over [accounts] accumulates in a [uint64]. *)
Definition sumBalances (m : gmap string Account) : Z :=
  map_fold (λ _ acc sum, u64 (sum + balance acc)) 0 m.

Definition verifyIntegrity (s : State) : bool :=
  sumBalances (accounts s) =? totalSupply s.

Definition accountExists (s : State) (a : string) : bool :=
  bool_decide (is_Some (accounts s !! a)).

Definition getAccountCount (s : State) : Z := Z.of_nat (size (accounts s)).

Definition getTransactionHistory (s : State) (a : string) : list string :=
  default [] (transactionHistories s !! a).

(** The mutating operations of the ledger, and runs of them. *)
Inductive op :=
| Transfer (recipient : string) (amount : Z)
| TransferFrom (owner recipient : string) (amount : Z)
| Approve (spender : string) (amount : Z)
| IncreaseAllowance (spender : string) (addedValue : Z)
| DecreaseAllowance (spender : string) (subtractedValue : Z)
| Mint (account : string) (amount : Z)
| Burn (account : string) (amount : Z)
| DistributeReward (recipient : string) (amount : Z)
| TreasuryWithdraw (recipient : string) (amount : Z)
| TreasuryDeposit (contributor : string) (amount : Z)
| RegisterAccount (account : string).

(** One call, at clock reading [now]. *)
Definition step (o : op) (now : Z) (s : State) : bool * State :=
  match o with
  | Transfer r a => transfer r a now s
  | TransferFrom o r a => transferFrom o r a now s
  | Approve sp a => approve sp a s
  | IncreaseAllowance sp a => increaseAllowance sp a s
  | DecreaseAllowance sp a => decreaseAllowance sp a s
  | Mint acc a => mint acc a now s
  | Burn acc a => burn acc a s
  | DistributeReward r a => distributeReward r a now s
  | TreasuryWithdraw r a => treasuryWithdraw r a now s
  | TreasuryDeposit c a => treasuryDeposit c a s
  | RegisterAccount acc => registerAccount acc now s
  end.

(** A run: the calls in order, each with its clock reading. *)
Fixpoint run (ops : list (op * Z)) (s : State) : State :=
  match ops with
  | [] => s
  | (o, now) :: rest => run rest (step o now s).2
  end.

End Token.

(** ** Iteration order of [std::map<std::string, _>]

    [std::map] is visited in increasing key order; [std::string] compares
    bytewise.  Loops whose effect depends on the order of the visit go
    through [sorted_keys]. *)

Definition string_le (a b : string) : Prop := String.leb a b = true.

#[global] Instance string_le_dec : RelDecision string_le.
Proof. intros a b. unfold string_le. apply _. Defined.

Definition sorted_keys {A} (m : gmap string A) : list string :=
  merge_sort string_le (map_to_list m).*1.

(** ** UCICDaoContract *)

Module Dao.

Record Contributor := mkContributor {
  address : string;
  tier : ContributorTier;
  compositeScore : Z;             (* uint32 *)
  pointsEarned : Z;               (* uint64 *)
  rewardsReceived : Z;            (* uint64 *)
  joinedAt : Z;
  lastRewardClaimAt : Z;
  auditTrail : list string
}.

Record Proposal := mkProposal {
  proposalId : Z;                 (* uint32 *)
  proposer : string;
  title : string;
  description : string;
  status : ProposalStatus;
  votesFor : Z;                   (* uint64 *)
  votesAgainst : Z;
  votesAbstain : Z;
  createdAt : Z;
  votingDeadline : Z;
  executionTime : Z
}.

(** [Proposal()] *)
Definition Proposal_default : Proposal :=
  mkProposal 0 "" "" "" PENDING 0 0 0 0 0 0.

Record Vote := mkVote {
  v_proposalId : Z;
  voter : string;
  voteType : VoteType;
  votingPower : Z;
  votedAt : Z
}.

Record State := mkState {
  tokenContract : Token.State;
  contributors : gmap string Contributor;
  proposals : gmap Z Proposal;
  votes : gmap (Z * string) Vote;
  governanceLog : list string;
  nextProposalId : Z;             (* uint32 *)
  totalRewardsDistributed : Z;    (* uint64 *)
  lastRewardDistribution : Z
}.

(** The constructor, around an existing token contract. *)
Definition init (tok : Token.State) : State :=
  {| tokenContract := tok;
     contributors := ∅;
     proposals := ∅;
     votes := ∅;
     governanceLog := [];
     nextProposalId := 1;
     totalRewardsDistributed := 0;
     lastRewardDistribution := 0 |}.

Definition set_tokenContract (tok : Token.State) (s : State) : State :=
  mkState tok (contributors s) (proposals s) (votes s) (governanceLog s)
          (nextProposalId s) (totalRewardsDistributed s)
          (lastRewardDistribution s).

Definition set_contributors (cs : gmap string Contributor) (s : State) : State :=
  mkState (tokenContract s) cs (proposals s) (votes s) (governanceLog s)
          (nextProposalId s) (totalRewardsDistributed s)
          (lastRewardDistribution s).

Definition set_proposals (ps : gmap Z Proposal) (s : State) : State :=
  mkState (tokenContract s) (contributors s) ps (votes s) (governanceLog s)
          (nextProposalId s) (totalRewardsDistributed s)
          (lastRewardDistribution s).

(** [recordGovernanceAction]: only the hash is kept. *)
Definition recordGovernanceAction (action actor txHash : string) (s : State)
  : State :=
  mkState (tokenContract s) (contributors s) (proposals s) (votes s)
          (governanceLog s ++ [txHash])
          (nextProposalId s) (totalRewardsDistributed s)
          (lastRewardDistribution s).

Definition registerContributor (addr referrer : string) (now : Z) (s : State)
  : bool * State :=
  match contributors s !! addr with
  | Some _ => (false, s)
  | None =>
    let contrib := mkContributor addr RECOGNIZED 0 0 0 now 0 [] in
    let s1 := set_contributors (<[addr := contrib]> (contributors s)) s in
    let txHash := "register_" +:+ addr +:+ "_" +:+ to_string now in
    (true, recordGovernanceAction "register_contributor" addr txHash s1)
  end.

(** [Contributor()] *)
Definition Contributor_default : Contributor :=
  mkContributor "" RECOGNIZED 0 0 0 0 0 [].

Definition getContributor (s : State) (addr : string) : Contributor :=
  default Contributor_default (contributors s !! addr).

Definition isContributor (s : State) (addr : string) : bool :=
  bool_decide (is_Some (contributors s !! addr)).

Definition getTier (s : State) (addr : string) : ContributorTier :=
  match contributors s !! addr with
  | Some c => tier c
  | None => RECOGNIZED
  end.

Definition getTierThreshold (t : ContributorTier) : Z :=
  match t with
  | RECOGNIZED => 0 | SILVER => 100 | GOLD => 250 | PLATINUM => 500
  | FOUNDER => 1000
  end.

(** The tier [updateTier] computes from the value it reads. *)
Definition tier_of_score (sc : Z) : ContributorTier :=
  if getTierThreshold PLATINUM <=? sc then PLATINUM
  else if getTierThreshold GOLD <=? sc then GOLD
  else if getTierThreshold SILVER <=? sc then SILVER
  else RECOGNIZED.

(** [updateTier]: the value read is [compositeScore]. *)
Definition updateTier (addr : string) (cs : gmap string Contributor)
  : gmap string Contributor :=
  match cs !! addr with
  | None => cs
  | Some c =>
    <[addr := mkContributor (address c) (tier_of_score (compositeScore c))
                (compositeScore c) (pointsEarned c) (rewardsReceived c)
                (joinedAt c) (lastRewardClaimAt c) (auditTrail c)]> cs
  end.

(** The [values] array filled by the loop of [submitCompositeScore]. *)
Definition category_values (scores : list CategoryScore) : list Z :=
  foldl (λ vals sc, <[category_index (category sc) := u8 (score sc)]> vals)
        [0; 0; 0; 0; 0] scores.

Definition composite_of (scores : list CategoryScore) : Z :=
  let v := category_values scores in
  calculateCompositeScore (nth 0 v 0) (nth 1 v 0) (nth 2 v 0) (nth 3 v 0)
                          (nth 4 v 0).

Definition submitCompositeScore (contributor : string)
    (scores : list CategoryScore) (now : Z) (s : State) : bool * State :=
  match contributors s !! contributor with
  | None => (false, s)
  | Some c =>
    let newScore := composite_of scores in
    let c1 := mkContributor (address c) (tier c) newScore
                (u64 (pointsEarned c + newScore)) (rewardsReceived c)
                (joinedAt c) (lastRewardClaimAt c) (auditTrail c) in
    let cs1 := updateTier contributor (<[contributor := c1]> (contributors s)) in
    let txHash := "score_" +:+ contributor +:+ "_" +:+ to_string now in
    let cs2 :=
      match cs1 !! contributor with
      | None => cs1
      | Some c2 =>
        <[contributor := mkContributor (address c2) (tier c2)
             (compositeScore c2) (pointsEarned c2) (rewardsReceived c2)
             (joinedAt c2) (lastRewardClaimAt c2) (auditTrail c2 ++ [txHash])]>
          cs1
      end in
    (true, set_contributors cs2 s)
  end.

Definition applyModuleBonus (contributor : string) (moduleId bonusPoints : Z)
    (s : State) : bool * State :=
  match contributors s !! contributor with
  | None => (false, s)
  | Some c =>
    let c1 := mkContributor (address c) (tier c)
                (u32 (compositeScore c + bonusPoints))
                (u64 (pointsEarned c + bonusPoints)) (rewardsReceived c)
                (joinedAt c) (lastRewardClaimAt c) (auditTrail c) in
    (true, set_contributors
             (updateTier contributor (<[contributor := c1]> (contributors s))) s)
  end.

(** [tierGroups[t]]: the addresses of tier [t], in the order of the visit of
    [contributors]. *)
Definition tierGroup (cs : gmap string Contributor) (t : ContributorTier)
  : list string :=
  filter (λ a, tier <$> cs !! a = Some t) (sorted_keys cs).

(** The body of the inner loop of [distributeMonthlyRewards]: one payment. *)
Definition payContributor (perContributorReward timestamp now : Z)
    (acc : State * Z) (addr : string) : State * Z :=
  let '(s, rewardedCount) := acc in
  let '(ok, tok) :=
    Token.distributeReward addr perContributorReward now (tokenContract s) in
  if ok then
    let s1 := set_tokenContract tok s in
    match contributors s1 !! addr with
    | Some c =>
      let c1 := mkContributor (address c) (tier c) (compositeScore c)
                  (pointsEarned c) (u64 (rewardsReceived c + perContributorReward))
                  (joinedAt c) timestamp (auditTrail c) in
      (set_contributors (<[addr := c1]> (contributors s1)) s1,
       u64 (rewardedCount + 1))
    | None => (s1, rewardedCount)
    end
  else (s, rewardedCount).

(** The body of the outer loop: one tier of the grouping [groups]. *)
Definition payTier (groups : ContributorTier → list string)
    (timestamp now : Z) (acc : State * Z) (t : ContributorTier) : State * Z :=
  match groups t with
  | [] => acc
  | group =>
    let monthlyPool := UC_TO_UNITS MONTHLY_REWARD_POOL in
    let tierReward := u64 (monthlyPool * REWARD_DISTRIBUTION t) / 100 in
    let perContributorReward := tierReward / Z.of_nat (length group) in
    foldl (payContributor perContributorReward timestamp now) acc group
  end.

Definition distributeMonthlyRewards (timestamp : Z) (now : Z) (s : State)
  : Z * State :=
  let monthlyPool := UC_TO_UNITS MONTHLY_REWARD_POOL in
  let groups := tierGroup (contributors s) in
  let '(s1, rewardedCount) :=
    foldl (payTier groups timestamp now) (s, 0)
          [FOUNDER; PLATINUM; GOLD; SILVER; RECOGNIZED] in
  let s2 :=
    mkState (tokenContract s1) (contributors s1) (proposals s1) (votes s1)
            (governanceLog s1) (nextProposalId s1)
            (u64 (totalRewardsDistributed s1 + monthlyPool)) timestamp in
  let txHash := "reward_dist_" +:+ to_string timestamp in
  (rewardedCount,
   recordGovernanceAction "distribute_monthly_rewards" "__DAO__" txHash s2).

Definition getPendingReward (s : State) (addr : string) : Z :=
  match contributors s !! addr with
  | None => 0
  | Some c =>
    u64 (UC_TO_UNITS MONTHLY_REWARD_POOL * REWARD_DISTRIBUTION (tier c)) / 100
  end.

Definition claimRewards (contributor : string) (now : Z) (s : State)
  : Z * State :=
  match contributors s !! contributor with
  | None => (0, s)
  | Some c =>
    let pending := getPendingReward s contributor in
    if 0 <? pending then
      let c1 := mkContributor (address c) (tier c) (compositeScore c)
                  (pointsEarned c) (u64 (rewardsReceived c + pending))
                  (joinedAt c) now (auditTrail c) in
      (pending, set_contributors (<[contributor := c1]> (contributors s)) s)
    else (pending, s)
  end.

(** [validateProposal]: declared and defined, never called. *)
Definition validateProposal (p : Proposal) : bool :=
  negb (String.eqb (title p) "") && negb (String.eqb (description p) "").

Definition createProposal (proposer_ title_ description_ : string) (now : Z)
    (s : State) : Z * State :=
  if negb (isContributor s proposer_) then (0, s)
  else
    let id := nextProposalId s in
    let proposal :=
      mkProposal id proposer_ title_ description_ PENDING 0 0 0 now
                 (u64 (now + u64 (PROPOSAL_VOTING_PERIOD_HOURS * 3600))) 0 in
    let s1 :=
      mkState (tokenContract s) (contributors s)
              (<[id := proposal]> (proposals s)) (votes s) (governanceLog s)
              (u32 (id + 1)) (totalRewardsDistributed s)
              (lastRewardDistribution s) in
    let txHash := "proposal_" +:+ to_string id in
    (id, recordGovernanceAction "create_proposal" proposer_ txHash s1).

Definition getVotingPower (s : State) (addr : string) : Z :=
  VOTING_POWER (getTier s addr).

Definition hasVoted (s : State) (pid : Z) (v : string) : bool :=
  bool_decide (is_Some (votes s !! (pid, v))).

Definition getProposal (s : State) (pid : Z) : Proposal :=
  default Proposal_default (proposals s !! pid).

Definition castVote (pid : Z) (voter_ : string) (vt : VoteType) (now : Z)
    (s : State) : bool * State :=
  match proposals s !! pid with
  | None => (false, s)
  | Some p =>
    if negb (isContributor s voter_) then (false, s)
    else if hasVoted s pid voter_ then (false, s)
    else
      let power := getVotingPower s voter_ in
      let vote := mkVote pid voter_ vt power now in
      let p1 :=
        match vt with
        | FOR =>
          mkProposal (proposalId p) (proposer p) (title p) (description p)
            (status p) (u64 (votesFor p + power)) (votesAgainst p)
            (votesAbstain p) (createdAt p) (votingDeadline p) (executionTime p)
        | AGAINST =>
          mkProposal (proposalId p) (proposer p) (title p) (description p)
            (status p) (votesFor p) (u64 (votesAgainst p + power))
            (votesAbstain p) (createdAt p) (votingDeadline p) (executionTime p)
        | ABSTAIN =>
          mkProposal (proposalId p) (proposer p) (title p) (description p)
            (status p) (votesFor p) (votesAgainst p)
            (u64 (votesAbstain p + power)) (createdAt p) (votingDeadline p)
            (executionTime p)
        end in
      (true,
       mkState (tokenContract s) (contributors s)
               (<[pid := p1]> (proposals s))
               (<[(pid, voter_) := vote]> (votes s)) (governanceLog s)
               (nextProposalId s) (totalRewardsDistributed s)
               (lastRewardDistribution s))
  end.

Definition executeProposal (pid : Z) (now : Z) (s : State) : bool * State :=
  match proposals s !! pid with
  | None => (false, s)
  | Some p =>
    if bool_decide (status p = PASSED) then
      let p1 :=
        mkProposal (proposalId p) (proposer p) (title p) (description p)
          EXECUTED (votesFor p) (votesAgainst p) (votesAbstain p) (createdAt p)
          (votingDeadline p) now in
      let txHash := "execute_" +:+ to_string pid in
      (true,
       recordGovernanceAction "execute_proposal" (proposer p) txHash
         (set_proposals (<[pid := p1]> (proposals s)) s))
    else (false, s)
  end.

(** [getContributorsInTier]: the same visit as the grouping of the reward
    cycle. *)
Definition getContributorsInTier (s : State) (t : ContributorTier)
  : list string :=
  tierGroup (contributors s) t.

(** [verifyIntegrity]: every contributor is stored under its own address. *)
Definition verifyIntegrity (s : State) : bool :=
  forallb (λ kc, bool_decide (address kc.2 = kc.1))
          (map_to_list (contributors s)).

(** The mutating operations of the registry; [TokenOp] is a call made
    directly on the token contract the registry shares. *)
Inductive op :=
| RegisterContributor (addr referrer : string)
| SubmitCompositeScore (contributor : string) (scores : list CategoryScore)
| ApplyModuleBonus (contributor : string) (moduleId bonusPoints : Z)
| DistributeMonthlyRewards (timestamp : Z)
| ClaimRewards (contributor : string)
| CreateProposal (proposer_ title_ description_ : string)
| CastVote (pid : Z) (voter_ : string) (vt : VoteType)
| ExecuteProposal (pid : Z)
| RecordGovernanceAction (action actor txHash : string)
| TokenOp (o : Token.op).

Definition step (o : op) (now : Z) (s : State) : State :=
  match o with
  | RegisterContributor a r => (registerContributor a r now s).2
  | SubmitCompositeScore c sc => (submitCompositeScore c sc now s).2
  | ApplyModuleBonus c m b => (applyModuleBonus c m b s).2
  | DistributeMonthlyRewards ts => (distributeMonthlyRewards ts now s).2
  | ClaimRewards c => (claimRewards c now s).2
  | CreateProposal p t d => (createProposal p t d now s).2
  | CastVote p v vt => (castVote p v vt now s).2
  | ExecuteProposal p => (executeProposal p now s).2
  | RecordGovernanceAction a c h => recordGovernanceAction a c h s
  | TokenOp o' => set_tokenContract (Token.step o' now (tokenContract s)).2 s
  end.

Fixpoint run (ops : list (op * Z)) (s : State) : State :=
  match ops with
  | [] => s
  | (o, now) :: rest => run rest (step o now s)
  end.

End Dao.

(** ** OracleContract *)

Module Oracle.

Record OracleSubmission := mkSubmission {
  submitter : string;
  targetContributor : string;
  scores : list CategoryScore;
  gitSHA1 : list Z;               (* 20 bytes *)
  dataHash : list Z;              (* 32 bytes *)
  verificationLevel : VerificationLevel;
  verifierCount : Z;              (* uint8 *)
  submittedAt : Z;
  verificationChain : list string
}.

Record VerificationRecord := mkRecord {
  verifier : string;
  approved : bool;
  notes : string;
  verifiedAt : Z
}.

Record State := mkState {
  daoContract : Dao.State;
  submissions : gmap string OracleSubmission;
  verificationChains : gmap string (list VerificationRecord);
  gitRepositories : gmap string string;
  merkleRoots : gmap string (list Z);
  verifiers : gset string;
  auditLog : list string;
  challenges : gmap string bool;
  totalVerifications : Z;         (* uint64 *)
  acceptedVerifications : Z       (* uint64 *)
}.

(** The constructor, around an existing DAO contract. *)
Definition init (dao : Dao.State) : State :=
  {| daoContract := dao;
     submissions := ∅;
     verificationChains := ∅;
     gitRepositories := ∅;
     merkleRoots := ∅;
     verifiers := ∅;
     auditLog := [];
     challenges := ∅;
     totalVerifications := 0;
     acceptedVerifications := 0 |}.

Definition set_daoContract (dao : Dao.State) (s : State) : State :=
  mkState dao (submissions s) (verificationChains s) (gitRepositories s)
          (merkleRoots s) (verifiers s) (auditLog s) (challenges s)
          (totalVerifications s) (acceptedVerifications s).

Definition validateScores (cq doc test innov comm : Z) : bool :=
  isValidScore cq && isValidScore doc && isValidScore test
  && isValidScore innov && isValidScore comm.

(** [result[i] ^= v] on a byte array. *)
Definition xor_at (i : nat) (v : Z) (h : list Z) : list Z :=
  <[i := Z.lxor (nth i h 0) v]> h.

(** [computeMerkleTree]: the XOR fold of the scores, then of the commit. *)
Definition computeMerkleTree (sub : OracleSubmission) : list Z :=
  let r0 := replicate 32 0 in
  let r1 :=
    (foldl (λ '(r, pos) sc, (xor_at (pos mod 32) (u8 (score sc)) r, S pos))
           (r0, 0%nat) (scores sub)).1 in
  foldl (λ r i, xor_at i (nth i (gitSHA1 sub) 0) r) r1 (seq 0 20).

(** [recordAction] *)
Definition recordAction (action actor submissionId : string) (now : Z)
    (s : State) : State :=
  let actionHash := action +:+ "_" +:+ actor +:+ "_" +:+ to_string now in
  mkState (daoContract s) (submissions s) (verificationChains s)
          (gitRepositories s) (merkleRoots s) (verifiers s)
          (auditLog s ++ [actionHash]) (challenges s)
          (totalVerifications s) (acceptedVerifications s).

(** The id [submitScore] gives a submission: ["sub_" + contributor + "_" +
    std::to_string(submittedAt)]. *)
Definition submission_id (contributor : string) (now : Z) : string :=
  "sub_" +:+ contributor +:+ "_" +:+ to_string now.

(** [submitScore]; the empty string is the failure value. *)
Definition submitScore (contributor : string) (cq doc test innov comm : Z)
    (gitRepository : string) (evidenceHash : list Z) (now : Z) (s : State)
  : string * State :=
  if negb (validateScores cq doc test innov comm) then ("", s)
  else
    let submission :=
      mkSubmission contributor contributor
        [ mkCategoryScore CODE_QUALITY cq "Code Quality Review" now;
          mkCategoryScore DOCUMENTATION doc "Documentation Review" now;
          mkCategoryScore TESTING test "Testing Coverage" now;
          mkCategoryScore INNOVATION innov "Innovation Assessment" now;
          mkCategoryScore COMMUNITY_IMPACT comm "Community Impact" now ]
        (replicate 20 0) evidenceHash UNVERIFIED 0 now [] in
    let submissionId := submission_id contributor now in
    let repos :=
      if String.eqb gitRepository "" then gitRepositories s
      else <[contributor := gitRepository]> (gitRepositories s) in
    let s1 :=
      mkState (daoContract s)
              (<[submissionId := submission]> (submissions s))
              (verificationChains s) repos
              (<[submissionId := computeMerkleTree submission]> (merkleRoots s))
              (verifiers s) (auditLog s) (challenges s)
              (totalVerifications s) (acceptedVerifications s) in
    (submissionId, recordAction "submit_score" contributor submissionId now s1).

Definition isVerifier (s : State) (a : string) : bool :=
  bool_decide (a ∈ verifiers s).

(** The level assignment at the end of [verifySubmission], from the
    incremented count and the vote; [old] is kept when the count is 0. *)
Definition next_level (count : Z) (appr : bool) (old : VerificationLevel)
  : VerificationLevel :=
  if 3 <=? count then (if appr then AUDIT_COMPLETE else BASIC)
  else if 1 <=? count then (if appr then ADVANCED else BASIC)
  else old.

Definition verifySubmission (submissionId verifier_ : string) (appr : bool)
    (notes_ : string) (now : Z) (s : State) : bool * State :=
  match submissions s !! submissionId with
  | None => (false, s)
  | Some sub =>
    if negb (isVerifier s verifier_) then (false, s)
    else
      let record := mkRecord verifier_ appr notes_ now in
      let chain := default [] (verificationChains s !! submissionId) in
      let count := u8 (verifierCount sub + 1) in
      let sub1 :=
        mkSubmission (submitter sub) (targetContributor sub) (scores sub)
          (gitSHA1 sub) (dataHash sub)
          (next_level count appr (verificationLevel sub)) count
          (submittedAt sub) (verificationChain sub) in
      let s1 :=
        mkState (daoContract s)
                (<[submissionId := sub1]> (submissions s))
                (<[submissionId := chain ++ [record]]> (verificationChains s))
                (gitRepositories s) (merkleRoots s) (verifiers s) (auditLog s)
                (challenges s)
                (u64 (totalVerifications s + 1))
                (if appr then u64 (acceptedVerifications s + 1)
                 else acceptedVerifications s) in
      (true, recordAction "verify_submission" verifier_ submissionId now s1)
  end.

Definition getVerificationStatus (s : State) (submissionId : string)
  : VerificationLevel :=
  match submissions s !! submissionId with
  | Some sub => verificationLevel sub
  | None => UNVERIFIED
  end.

Definition getVerificationChain (s : State) (submissionId : string)
  : list VerificationRecord :=
  default [] (verificationChains s !! submissionId).

Definition linkGitRepository (contributor repoUrl : string) (s : State)
  : bool * State :=
  (true,
   mkState (daoContract s) (submissions s) (verificationChains s)
           (<[contributor := repoUrl]> (gitRepositories s)) (merkleRoots s)
           (verifiers s) (auditLog s) (challenges s)
           (totalVerifications s) (acceptedVerifications s)).

Definition set_verifiers (vs : gset string) (s : State) : State :=
  mkState (daoContract s) (submissions s) (verificationChains s)
          (gitRepositories s) (merkleRoots s) vs (auditLog s) (challenges s)
          (totalVerifications s) (acceptedVerifications s).

Definition registerVerifier (a : string) (s : State) : bool * State :=
  if isVerifier s a then (false, s)
  else (true, set_verifiers ({[a]} ∪ verifiers s) s).

Definition removeVerifier (a : string) (s : State) : bool * State :=
  if isVerifier s a then (true, set_verifiers (verifiers s ∖ {[a]}) s)
  else (false, s).

Definition set_challenges (ch : gmap string bool) (s : State) : State :=
  mkState (daoContract s) (submissions s) (verificationChains s)
          (gitRepositories s) (merkleRoots s) (verifiers s) (auditLog s) ch
          (totalVerifications s) (acceptedVerifications s).

Definition challengeVerification (submissionId challenger reason : string)
    (now : Z) (s : State) : string * State :=
  match submissions s !! submissionId with
  | None => ("", s)
  | Some _ =>
    let challengeId :=
      "challenge_" +:+ submissionId +:+ "_" +:+ to_string now in
    (challengeId,
     recordAction "challenge_verification" challenger submissionId now
       (set_challenges (<[challengeId := false]> (challenges s)) s))
  end.

Definition resolveChallenge (challengeId : string) (accepted : bool)
    (s : State) : bool * State :=
  match challenges s !! challengeId with
  | None => (false, s)
  | Some _ => (true, set_challenges (<[challengeId := true]> (challenges s)) s)
  end.

(** [verificationLevel < VerificationLevel::ADVANCED] *)
Definition below_advanced (l : VerificationLevel) : bool :=
  level_index l <? level_index ADVANCED.

Definition registerWithDao (submissionId : string) (now : Z) (s : State)
  : bool * State :=
  match submissions s !! submissionId with
  | None => (false, s)
  | Some sub =>
    if below_advanced (verificationLevel sub) then (false, s)
    else
      let '(ok, dao) :=
        Dao.submitCompositeScore (targetContributor sub) (scores sub) now
                                 (daoContract s) in
      (ok, set_daoContract dao s)
  end.

(** [Hash256{}] *)
Definition Hash256_zero : list Z := replicate 32 0.

Definition createMerkleProof (s : State) (submissionId : string) : list Z :=
  match submissions s !! submissionId with
  | Some sub => computeMerkleTree sub
  | None => Hash256_zero
  end.

Definition getMerkleRoot (s : State) (submissionId : string) : list Z :=
  default Hash256_zero (merkleRoots s !! submissionId).

(** [verifyMerkleProof]: the 32 bytes are compared one by one. *)
Definition verifyMerkleProof (s : State) (submissionId : string)
    (merkleRoot : list Z) : bool :=
  match merkleRoots s !! submissionId with
  | Some r => forallb (λ i, nth i r 0 =? nth i merkleRoot 0) (seq 0 32)
  | None => false
  end.

Definition getLinkedRepository (s : State) (contributor : string) : string :=
  default "" (gitRepositories s !! contributor).

(** [getPendingChallenges]: the unresolved challenges, in key order. *)
Definition getPendingChallenges (s : State) : list string :=
  filter (λ c, challenges s !! c = Some false) (sorted_keys (challenges s)).

(** [getAcceptanceRate]: the quotient is cut to 8 bits. *)
Definition getAcceptanceRate (s : State) : Z :=
  if totalVerifications s =? 0 then 0
  else u8 (u64 (acceptedVerifications s * 100) / totalVerifications s).

Definition isRegisteredWithDao (s : State) (submissionId : string) : bool :=
  match submissions s !! submissionId with
  | Some sub => negb (below_advanced (verificationLevel sub))
  | None => false
  end.

(** The mutating operations of the oracle; [DaoOp] is a call made directly
    on the DAO contract the oracle shares. *)
Inductive op :=
| SubmitScore (contributor : string) (cq doc test innov comm : Z)
              (gitRepository : string) (evidenceHash : list Z)
| VerifySubmission (submissionId verifier_ : string) (appr : bool)
                   (notes_ : string)
| LinkGitRepository (contributor repoUrl : string)
| RecordAction (action actor submissionId : string)
| RegisterVerifier (a : string)
| RemoveVerifier (a : string)
| ChallengeVerification (submissionId challenger reason : string)
| ResolveChallenge (challengeId : string) (accepted : bool)
| RegisterWithDao (submissionId : string)
| DaoOp (o : Dao.op).

Definition step (o : op) (now : Z) (s : State) : State :=
  match o with
  | SubmitScore c cq doc test innov comm repo h =>
      (submitScore c cq doc test innov comm repo h now s).2
  | VerifySubmission i v a n => (verifySubmission i v a n now s).2
  | LinkGitRepository c r => (linkGitRepository c r s).2
  | RecordAction a c i => recordAction a c i now s
  | RegisterVerifier a => (registerVerifier a s).2
  | RemoveVerifier a => (removeVerifier a s).2
  | ChallengeVerification i c r => (challengeVerification i c r now s).2
  | ResolveChallenge c a => (resolveChallenge c a s).2
  | RegisterWithDao i => (registerWithDao i now s).2
  | DaoOp o' => set_daoContract (Dao.step o' now (daoContract s)) s
  end.

Fixpoint run (ops : list (op * Z)) (s : State) : State :=
  match ops with
  | [] => s
  | (o, now) :: rest => run rest (step o now s)
  end.

(** The three contracts as the tests build them. *)
Definition fresh (now : Z) : State := init (Dao.init (Token.init now)).

End Oracle.

(** * Properties *)

(** ** Definitions used in the statements *)

(** The sum of the balances without wrap-around, and the balance
    [accounts[a].balance] read through [operator[]]. *)
Definition sumZ (m : gmap string Token.Account) : Z :=
  map_fold (λ _ acc sum, sum + Token.balance acc) 0 m.

Definition bal (m : gmap string Token.Account) (a : string) : Z :=
  Token.balance (Token.account_at m a).

(** Conservation: the balances add up to the total supply modulo 2^64. *)
Definition conserved (s : Token.State) : Prop :=
  u64 (sumZ (Token.accounts s)) = Token.totalSupply s.

(** What [updateTier] maintains: the tier is the threshold tier of
    [compositeScore]. *)
Definition tier_by_score (s : Dao.State) : Prop :=
  ∀ c x, Dao.contributors s !! c = Some x →
         Dao.tier x = Dao.tier_of_score (Dao.compositeScore x).

(** The level the quorum rule assigns to a chain of records: from the
    number of records and the vote of the last one. *)
Definition quorum_level (chain : list Oracle.VerificationRecord)
  : VerificationLevel :=
  match last chain with
  | None => UNVERIFIED
  | Some r =>
    Oracle.next_level (Z.of_nat (length chain)) (Oracle.approved r) UNVERIFIED
  end.

(** The counter of a submission agrees with its chain: it counts no more
    records than the chain holds, and when it counts all of them the level
    is the one the quorum rule gives. *)
Definition counted (s : Oracle.State) : Prop :=
  ∀ id sub, Oracle.submissions s !! id = Some sub →
    let chain := Oracle.getVerificationChain s id in
    0 ≤ Oracle.verifierCount sub < two8 ∧
    Oracle.verifierCount sub ≤ Z.of_nat (length chain) ∧
    (Oracle.verifierCount sub = Z.of_nat (length chain) →
     Oracle.verificationLevel sub = quorum_level chain).

(** Whether the operation is a [submitScore] call that stores a submission
    under [id]: its scores are valid and the id it derives from contributor
    and clock reading is [id]. *)
Definition stores (id : string) (o : Oracle.op) (now : Z) : bool :=
  match o with
  | Oracle.SubmitScore c cq doc test innov comm _ _ =>
      Oracle.validateScores cq doc test innov comm
      && bool_decide (Oracle.submission_id c now = id)
  | _ => false
  end.

(** How many times a run stores a submission under [id]. *)
Fixpoint times_stored (id : string) (ops : list (Oracle.op * Z)) : nat :=
  match ops with
  | [] => 0
  | (o, now) :: rest =>
      ((if stores id o now then 1 else 0) + times_stored id rest)%nat
  end.

(** Records are kept only under ids of submissions. *)
Definition chains_closed (s : Oracle.State) : Prop :=
  ∀ id, Oracle.submissions s !! id = None →
        Oracle.verificationChains s !! id = None.

(** A counter that is not 0 comes with a last record, and the level is the
    one assigned from the counter and the vote of that record. *)
Definition level_by_count (s : Oracle.State) : Prop :=
  ∀ id sub, Oracle.submissions s !! id = Some sub →
    1 ≤ Oracle.verifierCount sub →
    ∃ r, last (Oracle.getVerificationChain s id) = Some r ∧
         Oracle.verificationLevel sub
           = Oracle.next_level (Oracle.verifierCount sub) (Oracle.approved r)
                               UNVERIFIED.

(** A counter at 0 belongs to an unverified submission, unless the counter
    has wrapped. *)
Definition unverified_at_zero (s : Oracle.State) : Prop :=
  ∀ id sub, Oracle.submissions s !! id = Some sub →
    Oracle.verifierCount sub = 0 →
    Oracle.verificationLevel sub = UNVERIFIED ∨
    (256 ≤ length (Oracle.getVerificationChain s id))%nat.

(** The submission under [id] was stored when its chain held [base]
    records: while fewer than 256 records have been appended since, the
    counter is their number, and with none appended the level is
    [UNVERIFIED]. *)
Definition since_stored (base : nat) (id : string) (s : Oracle.State) : Prop :=
  ∃ sub, Oracle.submissions s !! id = Some sub ∧
    let n := length (Oracle.getVerificationChain s id) in
    (base ≤ n)%nat ∧
    ((n - base < 256)%nat →
     Oracle.verifierCount sub = Z.of_nat (n - base)) ∧
    (n = base → Oracle.verificationLevel sub = UNVERIFIED).

(** A submission at [AUDIT_COMPLETE] has at least three records, one of
    them an approval. *)
Definition audited (s : Oracle.State) : Prop :=
  ∀ id sub, Oracle.submissions s !! id = Some sub →
    Oracle.verificationLevel sub = AUDIT_COMPLETE →
    (3 ≤ length (Oracle.getVerificationChain s id))%nat ∧
    ∃ r, r ∈ Oracle.getVerificationChain s id ∧ Oracle.approved r = true.

(** While a chain holds fewer than 256 records, a submission at
    [AUDIT_COMPLETE] has a count of at least 3. *)
Definition quorum_counted (s : Oracle.State) : Prop :=
  ∀ id sub, Oracle.submissions s !! id = Some sub →
    (length (Oracle.getVerificationChain s id) < 256)%nat →
    Oracle.verificationLevel sub = AUDIT_COMPLETE →
    3 ≤ Oracle.verifierCount sub.

(** The facts about counters, chains and levels that hold in every run. *)
Definition quorum_facts (s : Oracle.State) : Prop :=
  counted s ∧ audited s ∧ quorum_counted s.

(** A run used in the examples: one verifier, one contributor, one
    submission with id ["sub_bob_2"]. *)
Definition example_setup : list (Oracle.op * Z) :=
  [ (Oracle.DaoOp (Dao.RegisterContributor "bob" ""), 1);
    (Oracle.RegisterVerifier "v", 1);
    (Oracle.SubmitScore "bob" 100 100 100 100 100 "" (replicate 32 0), 2) ].

Definition approve_by_v : Oracle.op * Z :=
  (Oracle.VerifySubmission "sub_bob_2" "v" true "ok", 3).

Definition reject_by_v : Oracle.op * Z :=
  (Oracle.VerifySubmission "sub_bob_2" "v" false "no", 4).

(** Allowances are granted by the treasury only. *)
Definition treasury_allowances (s : Token.State) : Prop :=
  ∀ owner spender v,
    Token.allowances s !! (owner, spender) = Some v →
    owner = Token.treasuryAddress.

(** The ledger operations that keep [treasuryBalance] equal to the balance
    of the treasury account: those that move value through the treasury
    counter, with a counterpart other than the treasury itself, and those
    that move no value of the treasury. *)
Definition keeps_treasury_counter (o : Token.op) : bool :=
  match o with
  | Token.Transfer _ _ | Token.TransferFrom _ _ _ => false
  | Token.Mint a _ | Token.Burn a _
  | Token.DistributeReward a _ | Token.TreasuryWithdraw a _
  | Token.TreasuryDeposit a _ => negb (String.eqb a Token.treasuryAddress)
  | _ => true
  end.

Definition treasury_in_step (s : Token.State) : Prop :=
  Token.treasuryBalance s = bal (Token.accounts s) Token.treasuryAddress ∧
  0 ≤ Token.treasuryBalance s < two64.

(** An account map extends another: the same accounts and more, each with
    the address and creation time it had. *)
Definition accounts_extend (m m' : gmap string Token.Account) : Prop :=
  ∀ a acc, m !! a = Some acc →
    ∃ acc', m' !! a = Some acc' ∧
            Token.address acc' = Token.address acc ∧
            Token.createdAt acc' = Token.createdAt acc.

(** Every history of [h'] continues the history [h] has for the address. *)
Definition histories_extend (h h' : gmap string (list string)) : Prop :=
  ∀ a, default [] (h !! a) `prefix_of` default [] (h' !! a).

Definition has_treasury (s : Token.State) : Prop :=
  is_Some (Token.accounts s !! Token.treasuryAddress).

(** No proposal has left [PENDING]. *)
Definition all_pending (s : Dao.State) : Prop :=
  ∀ p pr, Dao.proposals s !! p = Some pr → Dao.status pr = PENDING.

(** The ids in use lie between 1 and [nextProposalId]. *)
Definition ids_below (s : Dao.State) : Prop :=
  1 ≤ Dao.nextProposalId s ∧
  ∀ p, is_Some (Dao.proposals s !! p) → 1 ≤ p < Dao.nextProposalId s.

(** Every contributor is stored under its own address. *)
Definition keyed_by_address (s : Dao.State) : Prop :=
  ∀ k c, Dao.contributors s !! k = Some c → Dao.address c = k.

(** A contributor map extends another: the same contributors and more,
    each with the address and join time it had. *)
Definition contributors_extend (m m' : gmap string Dao.Contributor) : Prop :=
  ∀ a c, m !! a = Some c →
    ∃ c', m' !! a = Some c' ∧
          Dao.address c' = Dao.address c ∧ Dao.joinedAt c' = Dao.joinedAt c.

(** Every entry of [m'] is an entry of [m] with the address it had, or is
    stored under its own address. *)
Definition contributors_from (m m' : gmap string Dao.Contributor) : Prop :=
  ∀ a c', m' !! a = Some c' →
    (∃ c, m !! a = Some c ∧ Dao.address c' = Dao.address c) ∨
    Dao.address c' = a.

(** The voting power recorded for proposal [p] with vote type [t], summed
    over the votes. *)
Definition tally (vs : gmap (Z * string) Dao.Vote) (p : Z) (t : VoteType) : Z :=
  map_fold (λ k v acc,
              if decide (k.1 = p ∧ Dao.voteType v = t)
              then acc + Dao.votingPower v else acc) 0 vs.

(** The three tallies of every proposal are the 64-bit sums of the recorded
    votes, and votes are recorded for known proposals only. *)
Definition tallied (s : Dao.State) : Prop :=
  (∀ p pr, Dao.proposals s !! p = Some pr →
     Dao.votesFor pr = u64 (tally (Dao.votes s) p FOR) ∧
     Dao.votesAgainst pr = u64 (tally (Dao.votes s) p AGAINST) ∧
     Dao.votesAbstain pr = u64 (tally (Dao.votes s) p ABSTAIN)) ∧
  (∀ k, is_Some (Dao.votes s !! k) → is_Some (Dao.proposals s !! k.1)).

(** The five category scores as [submitScore] stores them. *)
Definition five_scores (cq doc test innov comm now : Z) : list CategoryScore :=
  [ mkCategoryScore CODE_QUALITY cq "Code Quality Review" now;
    mkCategoryScore DOCUMENTATION doc "Documentation Review" now;
    mkCategoryScore TESTING test "Testing Coverage" now;
    mkCategoryScore INNOVATION innov "Innovation Assessment" now;
    mkCategoryScore COMMUNITY_IMPACT comm "Community Impact" now ].

(** Every stored submission holds five valid scores, one per category in
    order, and no commit. *)
Definition well_scored (s : Oracle.State) : Prop :=
  ∀ id sub, Oracle.submissions s !! id = Some sub →
    ∃ cq doc test innov comm now,
      isValidScore cq = true ∧ isValidScore doc = true ∧
      isValidScore test = true ∧ isValidScore innov = true ∧
      isValidScore comm = true ∧
      Oracle.scores sub = five_scores cq doc test innov comm now ∧
      Oracle.gitSHA1 sub = replicate 20 0.

(** The stored digest of every submission is the digest of the submission. *)
Definition roots_current (s : Oracle.State) : Prop :=
  ∀ id sub, Oracle.submissions s !! id = Some sub →
    Oracle.merkleRoots s !! id = Some (Oracle.computeMerkleTree sub).

(** The counters of the statistics: accepted verifications are among the
    verifications, which are at most [n]. *)
Definition verifications_counted (n : Z) (s : Oracle.State) : Prop :=
  0 ≤ Oracle.acceptedVerifications s ≤ Oracle.totalVerifications s ∧
  Oracle.totalVerifications s ≤ n.

(** The oracle operations that call the registry. *)
Definition reaches_registry (o : Oracle.op) : bool :=
  match o with
  | Oracle.RegisterWithDao _ | Oracle.DaoOp _ => true
  | _ => false
  end.

(** Every chain of [m'] continues the chain [m] has under the id. *)
Definition chains_extend
    (m m' : gmap string (list Oracle.VerificationRecord)) : Prop :=
  ∀ id, default [] (m !! id) `prefix_of` default [] (m' !! id).

(** ** The ledger: conservation *)

Section TokenConservation.
Import Token.

Lemma sumZ_insert_fresh m k a :
  m !! k = None → sumZ (<[k := a]> m) = sumZ m + balance a.
Proof.
  intros Hk. unfold sumZ.
  rewrite map_fold_insert_L; [done | intros; lia | done].
Qed.

Lemma sumBalances_insert_fresh m k a :
  m !! k = None → sumBalances (<[k := a]> m) = u64 (sumBalances m + balance a).
Proof.
  intros Hk. unfold sumBalances.
  rewrite map_fold_insert_L; [done | | done].
  intros. unfold u64, two64.
  rewrite !Zplus_mod_idemp_l. f_equal. lia.
Qed.

Lemma sumBalances_sumZ m : sumBalances m = u64 (sumZ m).
Proof.
  induction m as [|k a m Hk IH] using map_ind.
  - reflexivity.
  - rewrite sumBalances_insert_fresh, sumZ_insert_fresh, IH by done.
    unfold u64, two64. by rewrite Zplus_mod_idemp_l.
Qed.

Lemma sumZ_insert m k a :
  sumZ (<[k := a]> m) = sumZ m - bal m k + balance a.
Proof.
  unfold bal, account_at. destruct (m !! k) as [old|] eqn:Hk; simpl.
  - rewrite <- (insert_delete_id m k old) at 2 by done.
    rewrite <- insert_delete_eq.
    rewrite !sumZ_insert_fresh by apply lookup_delete_eq. lia.
  - rewrite sumZ_insert_fresh by done. lia.
Qed.

Lemma bal_insert m k a b :
  bal (<[k := a]> m) b = if decide (k = b) then balance a else bal m b.
Proof.
  unfold bal, account_at. rewrite lookup_insert. by case_decide.
Qed.

Lemma sumZ_ensure now a m : sumZ (ensure_account now a m) = sumZ m.
Proof.
  unfold ensure_account. destruct (m !! a) eqn:Ha; [done|].
  rewrite sumZ_insert_fresh by done. simpl. lia.
Qed.

Lemma bal_ensure now a m b : bal (ensure_account now a m) b = bal m b.
Proof.
  unfold ensure_account. destruct (m !! a) eqn:Ha; [done|].
  rewrite bal_insert. case_decide; [subst|done].
  unfold bal, account_at. by rewrite Ha.
Qed.

Lemma sumZ_update f a m :
  sumZ (update_balance f a m) = sumZ m - bal m a + f (bal m a).
Proof. unfold update_balance. by rewrite sumZ_insert. Qed.

Lemma bal_update f a m b :
  bal (update_balance f a m) b = if decide (a = b) then f (bal m a) else bal m b.
Proof. unfold update_balance. by rewrite bal_insert. Qed.

Lemma sumZ_bump a m : sumZ (bump_nonce a m) = sumZ m.
Proof. unfold bump_nonce. rewrite sumZ_insert. simpl. unfold bal. lia. Qed.

Ltac ledger_arith :=
  unfold u64, two64 in *; Z.to_euclidean_division_equations; lia.

Ltac ledger_step :=
  repeat case_match; simpl; try done;
  rewrite ?sumZ_bump, ?sumZ_update, ?bal_update, ?sumZ_ensure, ?bal_ensure,
          ?sumZ_update, ?bal_update;
  repeat case_decide; ledger_arith.

Lemma init_conserved now : conserved (init now).
Proof.
  unfold conserved, init; simpl. unfold sumZ.
  rewrite map_fold_singleton. simpl. reflexivity.
Qed.

Lemma transfer_conserved r a now s :
  conserved s → conserved (transfer r a now s).2.
Proof. unfold conserved, transfer. intros H. ledger_step. Qed.

Lemma transferFrom_conserved o r a now s :
  conserved s → conserved (transferFrom o r a now s).2.
Proof. unfold conserved, transferFrom. intros H. ledger_step. Qed.

Lemma approve_conserved sp a s : conserved s → conserved (approve sp a s).2.
Proof. unfold conserved, approve. intros H. by repeat case_match. Qed.

Lemma increaseAllowance_conserved sp a s :
  conserved s → conserved (increaseAllowance sp a s).2.
Proof. unfold conserved, increaseAllowance. intros H. by repeat case_match. Qed.

Lemma decreaseAllowance_conserved sp a s :
  conserved s → conserved (decreaseAllowance sp a s).2.
Proof. unfold conserved, decreaseAllowance. intros H. by repeat case_match. Qed.

Lemma mint_conserved acc a now s : conserved s → conserved (mint acc a now s).2.
Proof. unfold conserved, mint. intros H. ledger_step. Qed.

Lemma burn_conserved acc a s : conserved s → conserved (burn acc a s).2.
Proof. unfold conserved, burn. intros H. ledger_step. Qed.

Lemma distributeReward_conserved r a now s :
  conserved s → conserved (distributeReward r a now s).2.
Proof. unfold conserved, distributeReward. intros H. ledger_step. Qed.

Lemma treasuryWithdraw_conserved r a now s :
  conserved s → conserved (treasuryWithdraw r a now s).2.
Proof. unfold conserved, treasuryWithdraw. intros H. ledger_step. Qed.

Lemma treasuryDeposit_conserved c a s :
  conserved s → conserved (treasuryDeposit c a s).2.
Proof. unfold conserved, treasuryDeposit. intros H. ledger_step. Qed.

Lemma registerAccount_conserved acc now s :
  conserved s → conserved (registerAccount acc now s).2.
Proof.
  unfold conserved, registerAccount. intros H.
  repeat case_match; simpl; try done.
  rewrite sumZ_insert_fresh by done. simpl. by rewrite Z.add_0_r.
Qed.

Lemma step_conserved o now s : conserved s → conserved (step o now s).2.
Proof.
  destruct o; simpl;
    eauto using transfer_conserved, transferFrom_conserved, approve_conserved,
      increaseAllowance_conserved, decreaseAllowance_conserved, mint_conserved,
      burn_conserved, distributeReward_conserved, treasuryWithdraw_conserved,
      treasuryDeposit_conserved, registerAccount_conserved.
Qed.

Lemma run_conserved ops s : conserved s → conserved (run ops s).
Proof.
  revert s. induction ops as [|[o now] ops IH]; intros s H; simpl; [done|].
  by apply IH, step_conserved.
Qed.

Lemma conserved_verifyIntegrity s : conserved s → verifyIntegrity s = true.
Proof.
  unfold conserved, verifyIntegrity. intros H.
  rewrite sumBalances_sumZ, H. apply Z.eqb_refl.
Qed.

(** C1. Starting from the freshly constructed token contract, after every
    finite sequence of ledger operations (each of the eleven mutating
    operations, with any arguments, succeeding or not) the 64-bit sum of all
    account balances equals [totalSupply]: [verifyIntegrity] returns
    [true]. *)
Theorem C1_conservation (now0 : Z) (ops : list (op * Z)) :
  verifyIntegrity (run ops (init now0)) = true.
Proof. apply conserved_verifyIntegrity, run_conserved, init_conserved. Qed.

End TokenConservation.

(** ** The ledger: the treasury counter and the treasury account *)

(** C2. After [transfer] has emptied the treasury account, [treasuryBalance]
    still holds the initial supply ([transfer] never writes it), so
    [distributeReward] and [treasuryWithdraw] pass their guard, return
    [true], and the treasury account's balance wraps below zero. *)
Theorem C2_treasury_underflow_after_transfer :
  let s0 := Token.init 0 in
  let r1 := Token.transfer "alice" 100000000000 1 s0 in
  let r2 := Token.distributeReward "bob" 1 2 r1.2 in
  let r3 := Token.treasuryWithdraw "carol" 1 2 r1.2 in
  r1.1 = true ∧
  Token.balanceOf r1.2 Token.treasuryAddress = 0 ∧
  Token.treasuryBalance r1.2 = 100000000000 ∧
  r2.1 = true ∧
  Token.balanceOf r2.2 Token.treasuryAddress = 18446744073709551615 ∧
  r3.1 = true ∧
  Token.balanceOf r3.2 Token.treasuryAddress = 18446744073709551615.
Proof. vm_compute. repeat split. Qed.

(** ** The registry: votes *)

Section DaoVotes.
Import Dao.

Lemma payContributor_votes per ts now acc a :
  votes (payContributor per ts now acc a).1 = votes acc.1.
Proof.
  unfold payContributor. destruct acc as [s n].
  destruct (Token.distributeReward a per now (tokenContract s)) as [[] tok];
    simpl; [|done].
  by destruct (contributors s !! a).
Qed.

Lemma payGroup_votes per ts now group acc :
  votes (foldl (payContributor per ts now) acc group).1 = votes acc.1.
Proof.
  revert acc. induction group as [|a group IH]; intros acc; simpl; [done|].
  by rewrite IH, payContributor_votes.
Qed.

Lemma payTier_votes groups ts now acc t :
  votes (payTier groups ts now acc t).1 = votes acc.1.
Proof. unfold payTier. destruct (groups t); [done|]. apply payGroup_votes. Qed.

Lemma distributeMonthlyRewards_votes ts now s :
  votes (distributeMonthlyRewards ts now s).2 = votes s.
Proof.
  unfold distributeMonthlyRewards.
  destruct (foldl _ _ _) as [s1 n] eqn:E; simpl.
  change (votes s1) with (votes (s1, n).1). rewrite <- E. simpl.
  by rewrite !payTier_votes.
Qed.

(** A recorded vote is never removed. *)
Lemma step_votes_mono o now s k :
  is_Some (votes s !! k) → is_Some (votes (step o now s) !! k).
Proof.
  intros Hk. destruct o; simpl;
    try (unfold registerContributor, submitCompositeScore, applyModuleBonus,
           claimRewards, createProposal, executeProposal;
         repeat case_match; simpl; done).
  - by rewrite distributeMonthlyRewards_votes.
  - unfold castVote. repeat case_match; simpl; try done.
    all: rewrite lookup_insert; case_decide; [by eexists | done].
Qed.

Lemma run_votes_mono ops s k :
  is_Some (votes s !! k) → is_Some (votes (run ops s) !! k).
Proof.
  revert s. induction ops as [|[o now] ops IH]; intros s Hk; simpl; [done|].
  by apply IH, step_votes_mono.
Qed.

Lemma castVote_records p v T now s s' :
  castVote p v T now s = (true, s') → is_Some (votes s' !! (p, v)).
Proof.
  unfold castVote. repeat case_match; try done.
  all: intros [= <-]; simpl; rewrite lookup_insert_eq; by eexists.
Qed.

Lemma castVote_again_fails p v T now s :
  is_Some (votes s !! (p, v)) → castVote p v T now s = (false, s).
Proof.
  intros Hk. unfold castVote, hasVoted.
  rewrite (bool_decide_eq_true_2 _ Hk). by repeat case_match.
Qed.

(** C7. Once [castVote p v T] has succeeded, every later [castVote p v T']
    — after any further registry or ledger operations, for any vote type
    and at any time — returns [false] and leaves the whole state, hence the
    three tallies of the proposal, exactly as it was before the call. *)
Theorem C7_vote_uniqueness p v T now s s'
    (Hfirst : castVote p v T now s = (true, s')) :
  ∀ ops T' now',
    let s2 := run ops s' in
    let r := castVote p v T' now' s2 in
    r.1 = false ∧ r.2 = s2 ∧
    votesFor (getProposal r.2 p) = votesFor (getProposal s2 p) ∧
    votesAgainst (getProposal r.2 p) = votesAgainst (getProposal s2 p) ∧
    votesAbstain (getProposal r.2 p) = votesAbstain (getProposal s2 p).
Proof.
  intros ops T' now' s2 r. subst r.
  rewrite castVote_again_fails; [done|].
  by eapply run_votes_mono, castVote_records.
Qed.

End DaoVotes.

(** The theorem at a vote of carol on the first proposal. *)
Lemma C7_vote_uniqueness_witness :
  let s :=
    Dao.run [(Dao.RegisterContributor "carol" "", 1);
             (Dao.RegisterContributor "dave" "", 2);
             (Dao.CreateProposal "dave" "Budget" "Raise the pool", 3)]
            (Dao.init (Token.init 0)) in
  let s' := (Dao.castVote 1 "carol" FOR 4 s).2 in
  let r := Dao.castVote 1 "carol" AGAINST 5 s' in
  r.1 = false ∧ r.2 = s' ∧
  Dao.votesFor (Dao.getProposal r.2 1) = Dao.votesFor (Dao.getProposal s' 1) ∧
  Dao.votesAgainst (Dao.getProposal r.2 1)
    = Dao.votesAgainst (Dao.getProposal s' 1) ∧
  Dao.votesAbstain (Dao.getProposal r.2 1)
    = Dao.votesAbstain (Dao.getProposal s' 1).
Proof.
  intros s s'.
  refine (C7_vote_uniqueness 1 "carol" FOR 4 s s' _ [] AGAINST 5).
  vm_compute. reflexivity.
Defined.

(** ** The registry: claiming rewards *)

Section DaoClaims.
Import Dao.

Lemma pending_positive t :
  0 < u64 (UC_TO_UNITS MONTHLY_REWARD_POOL * REWARD_DISTRIBUTION t) / 100.
Proof. destruct t; vm_compute; reflexivity. Qed.

Lemma claimRewards_registered c x now s :
  contributors s !! c = Some x →
  claimRewards c now s =
    (getPendingReward s c,
     set_contributors
       (<[c := mkContributor (address x) (tier x) (compositeScore x)
                 (pointsEarned x)
                 (u64 (rewardsReceived x + getPendingReward s c))
                 (joinedAt x) now (auditTrail x)]> (contributors s)) s).
Proof.
  intros Hc. unfold claimRewards, getPendingReward.
  rewrite Hc. pose proof (pending_positive (tier x)) as Hp.
  apply Z.ltb_lt in Hp. by rewrite Hp.
Qed.

Lemma claimRewards_repeated c nows : ∀ x s,
  contributors s !! c = Some x →
  0 ≤ rewardsReceived x < two64 →
  let sn := run (map (λ t, (ClaimRewards c, t)) nows) s in
  tokenContract sn = tokenContract s ∧
  ∃ xn, contributors sn !! c = Some xn ∧ tier xn = tier x ∧
        rewardsReceived xn =
          u64 (rewardsReceived x
               + Z.of_nat (length nows) * getPendingReward s c).
Proof.
  induction nows as [|now nows IH]; intros x s Hc Hr; simpl.
  - split; [done|]. exists x. repeat split; [done|].
    unfold u64. rewrite Z.add_0_r, Z.mod_small; done.
  - rewrite (claimRewards_registered c x now s Hc). simpl.
    set (x1 := mkContributor _ _ _ _ _ _ _ _).
    set (s1 := set_contributors _ s).
    assert (Hc1 : contributors s1 !! c = Some x1)
      by (subst s1; simpl; apply lookup_insert_eq).
    assert (Hp : getPendingReward s1 c = getPendingReward s c)
      by (unfold getPendingReward; rewrite Hc1, Hc; done).
    destruct (IH x1 s1 Hc1) as [Htok (xn & Hxn & Htier & Hrew)].
    { subst x1; simpl. unfold u64, two64. by apply Z.mod_pos_bound. }
    split; [by rewrite Htok|].
    exists xn. repeat split; [done|by rewrite Htier|].
    rewrite Hrew, Hp. subst x1; simpl. unfold u64.
    rewrite Zplus_mod_idemp_l. f_equal. lia.
Qed.

(** C10. For a registered contributor, [claimRewards] returns the pending
    amount derived from the tier (which is positive), adds it to
    [rewardsReceived] (64-bit addition), and leaves the token contract —
    every balance, the treasury and the total supply — untouched.  Nothing
    limits repetition: after [n] calls [rewardsReceived] has grown by [n]
    times the pending amount, exactly so while the sum fits 64 bits. *)
Theorem C10_claimRewards_no_transfer c x s
    (Hreg : contributors s !! c = Some x)
    (Hrange : 0 ≤ rewardsReceived x < two64) :
  let pending := getPendingReward s c in
  pending = u64 (UC_TO_UNITS MONTHLY_REWARD_POOL * REWARD_DISTRIBUTION (tier x)) / 100 ∧
  0 < pending ∧
  (∀ now,
     let r := claimRewards c now s in
     r.1 = pending ∧
     tokenContract r.2 = tokenContract s ∧
     rewardsReceived (getContributor r.2 c)
       = u64 (rewardsReceived x + pending)) ∧
  (∀ nows,
     let n := Z.of_nat (length nows) in
     let sn := run (map (λ t, (ClaimRewards c, t)) nows) s in
     tokenContract sn = tokenContract s ∧
     rewardsReceived (getContributor sn c)
       = u64 (rewardsReceived x + n * pending) ∧
     (rewardsReceived x + n * pending < two64 →
      rewardsReceived (getContributor sn c)
        = rewardsReceived x + n * pending)).
Proof.
  intros pending.
  assert (Hdef : pending = u64 (UC_TO_UNITS MONTHLY_REWARD_POOL
                                * REWARD_DISTRIBUTION (tier x)) / 100).
  { subst pending. unfold getPendingReward. by rewrite Hreg. }
  split; [done|].
  assert (Hpos : 0 < pending) by (rewrite Hdef; apply pending_positive).
  split; [done|]. split.
  - intros now r. subst r. rewrite (claimRewards_registered c x now s Hreg).
    simpl. unfold getContributor; simpl. by rewrite lookup_insert_eq.
  - intros nows n sn.
    destruct (claimRewards_repeated c nows x s Hreg Hrange)
      as [Htok (xn & Hxn & _ & Hrew)].
    fold sn in Htok, Hxn. fold pending in Hrew. fold n in Hrew.
    split; [done|]. unfold getContributor. rewrite Hxn; simpl.
    split; [done|]. intros Hfit. rewrite Hrew. unfold u64.
    apply Z.mod_small. nia.
Qed.

End DaoClaims.

(** The theorem at a newly registered contributor, for one and for three
    claims. *)
Lemma C10_claimRewards_no_transfer_witness :
  let s := Dao.run [(Dao.RegisterContributor "erin" "", 1)]
                   (Dao.init (Token.init 0)) in
  let r := Dao.claimRewards "erin" 2 s in
  let s3 := Dao.run [(Dao.ClaimRewards "erin", 2); (Dao.ClaimRewards "erin", 3);
                     (Dao.ClaimRewards "erin", 4)] s in
  r.1 = 600000000 ∧
  Dao.tokenContract r.2 = Dao.tokenContract s ∧
  Dao.rewardsReceived (Dao.getContributor r.2 "erin") = 600000000 ∧
  Dao.tokenContract s3 = Dao.tokenContract s ∧
  Dao.rewardsReceived (Dao.getContributor s3 "erin") = 1800000000.
Proof.
  intros s r s3.
  assert (Hreg : Dao.contributors s !! "erin"
                 = Some (Dao.mkContributor "erin" RECOGNIZED 0 0 0 1 0 []))
    by (vm_compute; reflexivity).
  destruct (C10_claimRewards_no_transfer "erin" _ s Hreg
              ltac:(vm_compute; split; [discriminate | reflexivity]))
    as (_ & _ & Hone & Hmany).
  destruct (Hone 2) as (H1 & H2 & H3).
  destruct (Hmany [2; 3; 4]) as (H4 & H5 & _).
  repeat split; assumption.
Defined.

(** ** The registry: tiers, the reward cycle, proposals *)

(** C4. [updateTier] reads [compositeScore], which [submitCompositeScore]
    overwrites, and not the accumulated [pointsEarned]: after two
    submissions of composite score 60 the contributor has 120 points, for
    which the thresholds give Silver, and [getTier] returns Recognized. *)
Theorem C4_tier_ignores_pointsEarned :
  let sixty :=
    [ mkCategoryScore CODE_QUALITY 60 "" 0;
      mkCategoryScore DOCUMENTATION 60 "" 0;
      mkCategoryScore TESTING 60 "" 0;
      mkCategoryScore INNOVATION 60 "" 0;
      mkCategoryScore COMMUNITY_IMPACT 60 "" 0 ] in
  let s :=
    Dao.run [(Dao.RegisterContributor "bob" "", 1);
             (Dao.SubmitCompositeScore "bob" sixty, 2);
             (Dao.SubmitCompositeScore "bob" sixty, 3)]
            (Dao.init (Token.init 0)) in
  Dao.pointsEarned (Dao.getContributor s "bob") = 120 ∧
  Dao.compositeScore (Dao.getContributor s "bob") = 60 ∧
  Dao.tier_of_score 120 = SILVER ∧
  Dao.getTier s "bob" = RECOGNIZED.
Proof. vm_compute. repeat split. Qed.

(** C5. With one contributor in each of the four tiers reached by scoring,
    one call of [distributeMonthlyRewards] pays 12 + 9 + 6 + 6 = 33 UC out
    of the treasury, against a monthly pool of 30 UC (the percentages of
    [REWARD_DISTRIBUTION] add up to 110 without Founder), while
    [totalRewardsDistributed] grows by the pool. *)
Theorem C5_monthly_rewards_exceed_pool :
  let s :=
    Dao.run [(Dao.RegisterContributor "a" "", 1);
             (Dao.RegisterContributor "b" "", 1);
             (Dao.RegisterContributor "c" "", 1);
             (Dao.RegisterContributor "d" "", 1);
             (Dao.ApplyModuleBonus "b" 1 100, 2);
             (Dao.ApplyModuleBonus "c" 2 250, 2);
             (Dao.ApplyModuleBonus "d" 3 500, 2)]
            (Dao.init (Token.init 0)) in
  let r := Dao.distributeMonthlyRewards 10 10 s in
  let treasury t := Token.balanceOf (Dao.tokenContract t) Token.treasuryAddress in
  Dao.tierGroup (Dao.contributors s) RECOGNIZED = ["a"] ∧
  Dao.tierGroup (Dao.contributors s) SILVER = ["b"] ∧
  Dao.tierGroup (Dao.contributors s) GOLD = ["c"] ∧
  Dao.tierGroup (Dao.contributors s) PLATINUM = ["d"] ∧
  r.1 = 4 ∧
  UC_TO_UNITS MONTHLY_REWARD_POOL = 3000000000 ∧
  treasury s - treasury r.2 = 3300000000 ∧
  Dao.totalRewardsDistributed r.2 = 3000000000.
Proof. vm_compute. repeat split. Qed.

(** C9. [createProposal] does not call [validateProposal]: for a registered
    proposer and an empty title and description it returns the new id 1 and
    records the proposal (Pending, deadline 72 hours after creation), which
    [validateProposal] rejects. *)
Theorem C9_createProposal_accepts_empty_title :
  let s := Dao.run [(Dao.RegisterContributor "alice" "", 1)]
                   (Dao.init (Token.init 0)) in
  let r := Dao.createProposal "alice" "" "" 1000 s in
  r.1 = 1 ∧
  Dao.proposals s !! 1 = None ∧
  Dao.proposals r.2 !! 1
    = Some (Dao.mkProposal 1 "alice" "" "" PENDING 0 0 0 1000 (1000 + 72 * 3600) 0) ∧
  Dao.validateProposal (Dao.getProposal r.2 1) = false.
Proof. vm_compute. repeat split. Qed.

(** ** The registry: who is paid by the reward cycle, and new proposals *)

Section DaoRewards.
Import Dao.

Lemma balanceOf_bal s a : Token.balanceOf s a = bal (Token.accounts s) a.
Proof.
  unfold Token.balanceOf, bal, Token.account_at.
  by destruct (Token.accounts s !! a).
Qed.

(** [distributeReward] changes the balances of the treasury and of the
    recipient only. *)
Lemma distributeReward_other r amt now s a :
  a ≠ r → a ≠ Token.treasuryAddress →
  Token.balanceOf (Token.distributeReward r amt now s).2 a = Token.balanceOf s a.
Proof.
  intros Hr Ht. unfold Token.distributeReward. case_match; [done|].
  rewrite !balanceOf_bal. simpl.
  rewrite !bal_update, !bal_ensure.
  unfold Token.treasuryAddress in *. repeat case_decide; congruence.
Qed.

Lemma payContributor_other per ts now acc addr a :
  a ≠ addr → a ≠ Token.treasuryAddress →
  Token.balanceOf (tokenContract (payContributor per ts now acc addr).1) a
    = Token.balanceOf (tokenContract acc.1) a.
Proof.
  intros Hr Ht. unfold payContributor. destruct acc as [s n].
  pose proof (distributeReward_other addr per now (tokenContract s) a Hr Ht)
    as Hbal.
  destruct (Token.distributeReward addr per now (tokenContract s)) as [[] tok];
    simpl in *; [|done].
  by destruct (contributors s !! addr).
Qed.

Lemma payGroup_other per ts now group : ∀ acc a,
  a ∉ group → a ≠ Token.treasuryAddress →
  Token.balanceOf (tokenContract
                     (foldl (payContributor per ts now) acc group).1) a
    = Token.balanceOf (tokenContract acc.1) a.
Proof.
  induction group as [|addr group IH]; intros acc a Hin Ht; simpl; [done|].
  apply not_elem_of_cons in Hin as [Hne Hin].
  rewrite IH by done. by apply payContributor_other.
Qed.

Lemma payTier_other groups ts now acc t a :
  a ∉ groups t → a ≠ Token.treasuryAddress →
  Token.balanceOf (tokenContract (payTier groups ts now acc t).1) a
    = Token.balanceOf (tokenContract acc.1) a.
Proof.
  intros Hin Ht. unfold payTier.
  destruct (groups t) eqn:E; [done|]. by apply payGroup_other.
Qed.

(** One reward cycle changes no balance but the treasury's and those of
    the addresses in the tier grouping computed when the call starts. *)
Lemma distributeMonthlyRewards_pays_grouping ts now s a :
  a ≠ Token.treasuryAddress →
  (∀ t, a ∉ tierGroup (contributors s) t) →
  Token.balanceOf (tokenContract (distributeMonthlyRewards ts now s).2) a
    = Token.balanceOf (tokenContract s) a.
Proof.
  intros Ht Hin. unfold distributeMonthlyRewards.
  destruct (foldl _ _ _) as [s1 n] eqn:E; simpl.
  change (tokenContract s1) with (tokenContract (s1, n).1). rewrite <- E.
  simpl. by rewrite !payTier_other.
Qed.

(** For a registered proposer [createProposal] always succeeds: it returns
    [nextProposalId], advances it, and records a Pending proposal with no
    votes whose deadline is 72 hours after its creation time. *)
Lemma createProposal_registered p t d now s :
  isContributor s p = true →
  let r := createProposal p t d now s in
  r.1 = nextProposalId s ∧
  nextProposalId r.2 = u32 (nextProposalId s + 1) ∧
  proposals r.2 !! nextProposalId s
    = Some (mkProposal (nextProposalId s) p t d PENDING 0 0 0 now
              (u64 (now + 72 * 3600)) 0).
Proof.
  intros Hp. unfold createProposal. rewrite Hp. simpl.
  by rewrite lookup_insert_eq.
Qed.

End DaoRewards.

(** ** The registry: what the tier follows *)

Section DaoTiers.
Import Dao.

Lemma payContributor_tier_by_score per ts now acc addr :
  tier_by_score acc.1 → tier_by_score (payContributor per ts now acc addr).1.
Proof.
  destruct acc as [s n]. simpl. intros Hs. unfold payContributor.
  destruct (Token.distributeReward addr per now (tokenContract s)) as [[] tok];
    simpl; [|done].
  destruct (contributors s !! addr) as [x|] eqn:Hx; simpl; [|done].
  intros c y. simpl. rewrite lookup_insert. case_decide; [|apply Hs].
  intros [= <-]. simpl. exact (Hs _ _ Hx).
Qed.

Lemma payGroup_tier_by_score per ts now group : ∀ acc,
  tier_by_score acc.1 →
  tier_by_score (foldl (payContributor per ts now) acc group).1.
Proof.
  induction group as [|a group IH]; intros acc Hs; simpl; [done|].
  by apply IH, payContributor_tier_by_score.
Qed.

Lemma payTier_tier_by_score groups ts now acc t :
  tier_by_score acc.1 → tier_by_score (payTier groups ts now acc t).1.
Proof.
  intros Hs. unfold payTier. destruct (groups t); [done|].
  by apply payGroup_tier_by_score.
Qed.

Lemma updateTier_tier_by_score c x cs :
  (∀ c' y, c' ≠ c → cs !! c' = Some y →
           tier y = tier_of_score (compositeScore y)) →
  cs !! c = Some x →
  ∀ c' y, updateTier c cs !! c' = Some y →
          tier y = tier_of_score (compositeScore y).
Proof.
  intros Hothers Hc c' y. unfold updateTier. rewrite Hc.
  rewrite lookup_insert. case_decide; [|by apply Hothers].
  by intros [= <-].
Qed.

Lemma step_tier_by_score o now s : tier_by_score s → tier_by_score (step o now s).
Proof.
  intros Hs. destruct o; simpl; try done.
  - unfold registerContributor.
    destruct (contributors s !! addr) eqn:Ha; [done|]. simpl.
    intros c x. simpl. rewrite lookup_insert. case_decide; [|apply Hs].
    by intros [= <-].
  - unfold submitCompositeScore.
    destruct (contributors s !! contributor) as [x|] eqn:Hc; [|done]. simpl.
    set (x1 := mkContributor _ _ _ _ _ _ _ _).
    assert (Hup : ∀ c' y,
              updateTier contributor (<[contributor := x1]> (contributors s))
                !! c' = Some y →
              tier y = tier_of_score (compositeScore y)).
    { apply (updateTier_tier_by_score contributor x1);
        [|apply lookup_insert_eq].
      intros c' y Hne. rewrite lookup_insert_ne by done. apply Hs. }
    intros c y. simpl.
    destruct (updateTier _ _ !! contributor) as [x2|] eqn:Hx2; [|apply Hup].
    rewrite lookup_insert. case_decide; [|apply Hup].
    intros [= <-]. simpl. by apply (Hup contributor).
  - unfold applyModuleBonus.
    destruct (contributors s !! contributor) as [x|] eqn:Hc; [|done]. simpl.
    set (x1 := mkContributor _ _ _ _ _ _ _ _).
    intros c y. simpl.
    apply (updateTier_tier_by_score contributor x1);
      [|apply lookup_insert_eq].
    intros c' y' Hne. rewrite lookup_insert_ne by done. apply Hs.
  - unfold distributeMonthlyRewards.
    destruct (foldl _ _ _) as [s1 n] eqn:E; simpl.
    assert (Hs1 : tier_by_score (s1, n).1).
    { rewrite <- E. simpl. by repeat apply payTier_tier_by_score. }
    exact Hs1.
  - unfold claimRewards.
    destruct (contributors s !! contributor) as [x|] eqn:Hc; [|done].
    case_match; [|done]. simpl.
    intros c y. simpl. rewrite lookup_insert. case_decide; [|apply Hs].
    intros [= <-]. simpl. exact (Hs _ _ Hc).
  - unfold createProposal. by case_match.
  - unfold castVote. by repeat case_match.
  - unfold executeProposal. by repeat case_match.
Qed.

Lemma run_tier_by_score ops s : tier_by_score s → tier_by_score (run ops s).
Proof.
  revert s. induction ops as [|[o now] ops IH]; intros s Hs; simpl; [done|].
  by apply IH, step_tier_by_score.
Qed.

(** In every state the registry reaches, [getTier] is the threshold tier of
    the contributor's [compositeScore]. *)
Lemma getTier_follows_compositeScore ops tok c x :
  contributors (run ops (init tok)) !! c = Some x →
  getTier (run ops (init tok)) c = tier_of_score (compositeScore x).
Proof.
  intros Hc. unfold getTier. rewrite Hc.
  refine (run_tier_by_score ops (init tok) _ c x Hc).
  intros c' y. unfold init; simpl. by rewrite lookup_empty.
Qed.

End DaoTiers.

(** ** The oracle: the verifier count and the quorum rule *)

Section OracleQuorum.
Import Oracle.

Lemma init_counted dao : counted (init dao).
Proof. intros id sub. unfold init; simpl. by rewrite lookup_empty. Qed.

Lemma submitScore_counted c cq doc test innov comm repo h now s :
  counted s → counted (submitScore c cq doc test innov comm repo h now s).2.
Proof.
  intros Hs. unfold submitScore. case_match; [done|]. simpl.
  intros id sub. unfold getVerificationChain. simpl.
  rewrite lookup_insert. case_decide as Hid.
  - intros [= <-]; simpl. split; [done|]. split; [lia|].
    intros Hlen. destruct (default [] _) as [|]; [done|]. simpl in Hlen. lia.
  - apply Hs.
Qed.

Lemma quorum_level_snoc chain r :
  quorum_level (chain ++ [r]) =
    next_level (Z.of_nat (length chain) + 1) (approved r) UNVERIFIED.
Proof.
  unfold quorum_level. rewrite last_snoc, length_app. simpl.
  f_equal. lia.
Qed.

Lemma next_level_positive n a l1 l2 :
  1 ≤ n → next_level n a l1 = next_level n a l2.
Proof.
  intros Hn. unfold next_level.
  destruct (3 <=? n); [done|].
  destruct (1 <=? n) eqn:E; [done|]. apply Z.leb_gt in E. lia.
Qed.

(** The 8-bit increment: either it does not wrap, or the count was 255. *)
Lemma u8_succ_cases n :
  0 ≤ n < two8 →
  (n ≠ 255 ∧ u8 (n + 1) = n + 1) ∨ (n = 255 ∧ u8 (n + 1) = 0).
Proof.
  unfold u8, two8. intros Hn.
  destruct (decide (n = 255)) as [->|]; [by right|].
  left. split; [done|]. apply Z.mod_small. lia.
Qed.

Lemma verifySubmission_counted id v a n now s :
  counted s → counted (verifySubmission id v a n now s).2.
Proof.
  intros Hs. unfold verifySubmission.
  destruct (submissions s !! id) as [sub|] eqn:Hsub; [|done].
  case_match; [done|]. simpl.
  intros id' sub'. unfold getVerificationChain. simpl.
  rewrite !lookup_insert. case_decide as Hid; [subst id'|apply Hs].
  intros [= <-]; simpl.
  destruct (Hs id sub Hsub) as (Hrange & Hle & Hlevel).
  unfold getVerificationChain in Hle, Hlevel.
  set (chain := default [] (verificationChains s !! id)) in *.
  rewrite length_app; simpl.
  split; [unfold u8, two8; by apply Z.mod_pos_bound|].
  destruct (u8_succ_cases _ Hrange) as [[Hne ->]|[H255 ->]].
  - split; [lia|]. intros Heq.
    rewrite quorum_level_snoc.
    replace (Z.of_nat (length chain) + 1) with (verifierCount sub + 1) by lia.
    apply next_level_positive. lia.
  - split; [lia|]. intros Heq. lia.
Qed.

Lemma registerWithDao_submissions id now s :
  submissions (registerWithDao id now s).2 = submissions s ∧
  verificationChains (registerWithDao id now s).2 = verificationChains s.
Proof. unfold registerWithDao. repeat case_match; simpl; done. Qed.

(** Operations other than [submitScore] and [verifySubmission] leave the
    submissions and their chains alone. *)
Lemma step_other_submissions o now s :
  (∀ c cq doc test innov comm repo h,
     o ≠ SubmitScore c cq doc test innov comm repo h) →
  (∀ id v a n, o ≠ VerifySubmission id v a n) →
  submissions (step o now s) = submissions s ∧
  verificationChains (step o now s) = verificationChains s.
Proof.
  intros Hns Hnv. destruct o; simpl; try done.
  - by destruct (Hns contributor cq doc test innov comm gitRepository evidenceHash).
  - by destruct (Hnv submissionId verifier_ appr notes_).
  - unfold registerVerifier. by case_match.
  - unfold removeVerifier. by case_match.
  - unfold challengeVerification. by case_match.
  - unfold resolveChallenge. by case_match.
  - apply registerWithDao_submissions.
Qed.

Lemma step_counted o now s : counted s → counted (step o now s).
Proof.
  intros Hs.
  destruct o; try by apply submitScore_counted.
  1: by apply verifySubmission_counted.
  all: intros id sub; unfold getVerificationChain;
    edestruct step_other_submissions as [-> ->]; [done|done|apply Hs].
Qed.

Lemma step_chains_closed o now s :
  chains_closed s → chains_closed (step o now s).
Proof.
  intros Hs.
  destruct o.
  3-10: intros id; edestruct step_other_submissions as [-> ->];
    [done|done|apply Hs].
  - simpl. unfold submitScore. case_match; [done|].
    intros id. simpl. rewrite lookup_insert. case_decide; [done|apply Hs].
  - simpl. unfold verifySubmission.
    destruct (submissions s !! submissionId) eqn:Hsub; [|done].
    case_match; [done|].
    intros id. simpl. rewrite !lookup_insert. case_decide; [done|apply Hs].
Qed.

Lemma verifySubmission_keys i v a n now s id :
  submissions s !! id = None →
  submissions (verifySubmission i v a n now s).2 !! id = None.
Proof.
  intros Hid. unfold verifySubmission.
  destruct (submissions s !! i) eqn:Hsub; [|done].
  case_match; [done|]. simpl.
  rewrite lookup_insert. case_decide; [congruence|done].
Qed.

Lemma next_level_audit_complete n a old :
  next_level n a old = AUDIT_COMPLETE →
  (3 ≤ n ∧ a = true) ∨ (n < 1 ∧ old = AUDIT_COMPLETE).
Proof.
  unfold next_level.
  destruct (3 <=? n) eqn:H3.
  - apply Z.leb_le in H3. destruct a; [by left|done].
  - destruct (1 <=? n) eqn:H1.
    + by destruct a.
    + apply Z.leb_gt in H1. by right.
Qed.

Lemma submitScore_quorum_facts c cq doc test innov comm repo h now s :
  quorum_facts s →
  quorum_facts (submitScore c cq doc test innov comm repo h now s).2.
Proof.
  intros (Hc & Ha & Hq). split; [by apply submitScore_counted|].
  unfold submitScore. case_match; [done|].
  split; intros id sub; unfold getVerificationChain; simpl;
    (rewrite lookup_insert; case_decide as Hid;
     [by intros [= <-]|]).
  - apply Ha.
  - apply Hq.
Qed.

Lemma verifySubmission_quorum_facts id v a n now s :
  quorum_facts s → quorum_facts (verifySubmission id v a n now s).2.
Proof.
  intros (Hc & Ha & Hq). split; [by apply verifySubmission_counted|].
  unfold verifySubmission.
  destruct (submissions s !! id) as [sub|] eqn:Hsub; [|done].
  case_match; [done|].
  destruct (Hc id sub Hsub) as (Hrange & Hle & _).
  pose proof (Ha id sub Hsub) as Ha0. pose proof (Hq id sub Hsub) as Hq0.
  unfold getVerificationChain in Hle, Ha0, Hq0.
  set (chain := default [] (verificationChains s !! id)) in *.
  assert (Hu8 : u8 (verifierCount sub + 1) ≤ verifierCount sub + 1).
  { destruct (u8_succ_cases _ Hrange) as [[_ ->]|[_ ->]]; lia. }
  split; intros id' sub'; unfold getVerificationChain; simpl;
    (rewrite !lookup_insert; case_decide as Hid; [subst id'|]).
  - intros [= <-]; simpl. fold chain. rewrite length_app; simpl.
    intros [[H3 Happr]|[H0 Hold]]%next_level_audit_complete.
    + split; [lia|]. eexists. split; [apply elem_of_app; right; by left|done].
    + destruct (Ha0 Hold) as [Hlen (r & Hr & Hrappr)].
      split; [lia|]. exists r. split; [apply elem_of_app; by left|done].
  - apply Ha.
  - intros [= <-]; simpl. fold chain. rewrite length_app; simpl.
    intros Hlen [[H3 _]|[H0' Hold]]%next_level_audit_complete; [done|].
    destruct (u8_succ_cases _ Hrange) as [[_ Heq]|[H255 _]]; lia.
  - apply Hq.
Qed.

Lemma step_quorum_facts o now s : quorum_facts s → quorum_facts (step o now s).
Proof.
  intros Hs.
  destruct o; try by apply submitScore_quorum_facts.
  1: by apply verifySubmission_quorum_facts.
  all: destruct Hs as (Hc & Ha & Hq);
    (split; [by apply step_counted|]);
    split; intros id sub; unfold getVerificationChain;
    edestruct step_other_submissions as [-> ->]; try done;
    [apply Ha | apply Hq].
Qed.

Lemma run_quorum_facts ops s : quorum_facts s → quorum_facts (run ops s).
Proof.
  revert s. induction ops as [|[o now] ops IH]; intros s H; simpl; [done|].
  by apply IH, step_quorum_facts.
Qed.

Lemma init_quorum_facts dao : quorum_facts (init dao).
Proof.
  split; [apply init_counted|].
  split; intros id sub; unfold init; simpl; by rewrite lookup_empty.
Qed.

Lemma run_app ops1 ops2 s : run (ops1 ++ ops2) s = run ops2 (run ops1 s).
Proof.
  revert s. induction ops1 as [|[o now] ops1 IH]; intros s; simpl; [done|].
  apply IH.
Qed.

Lemma step_level_by_count o now s :
  counted s → level_by_count s → level_by_count (step o now s).
Proof.
  intros Hc Hs. destruct o.
  3-10: intros id sub; unfold getVerificationChain;
    edestruct step_other_submissions as [-> ->]; [done|done|apply Hs].
  - simpl. unfold submitScore. case_match; [done|]. simpl.
    intros id sub. unfold getVerificationChain. simpl.
    rewrite lookup_insert. case_decide as Hid; [|apply Hs].
    intros [= <-]; simpl. lia.
  - simpl. unfold verifySubmission.
    destruct (submissions s !! submissionId) as [sub|] eqn:Hsub; [|done].
    case_match; [done|]. simpl.
    intros id' sub'. unfold getVerificationChain. simpl.
    rewrite !lookup_insert. case_decide as Hid; [subst id'|apply Hs].
    intros [= <-]; simpl. intros H1.
    eexists. split; [apply last_snoc|]. simpl.
    by apply next_level_positive.
Qed.

Lemma step_unverified_at_zero o now s :
  counted s → unverified_at_zero s → unverified_at_zero (step o now s).
Proof.
  intros Hc Hs. destruct o.
  3-10: intros id sub; unfold getVerificationChain;
    edestruct step_other_submissions as [-> ->]; [done|done|apply Hs].
  - simpl. unfold submitScore. case_match; [done|]. simpl.
    intros id sub. unfold getVerificationChain. simpl.
    rewrite lookup_insert. case_decide as Hid; [|apply Hs].
    intros [= <-]; simpl. by left.
  - simpl. unfold verifySubmission.
    destruct (submissions s !! submissionId) as [sub|] eqn:Hsub; [|done].
    case_match; [done|]. simpl.
    intros id' sub'. unfold getVerificationChain. simpl.
    rewrite !lookup_insert. case_decide as Hid; [subst id'|apply Hs].
    intros [= <-]; simpl. intros H0. right.
    destruct (Hc _ _ Hsub) as (Hrange & Hle & _).
    unfold getVerificationChain in Hle. rewrite length_app. simpl.
    destruct (u8_succ_cases _ Hrange) as [[_ Heq]|[H255 _]]; lia.
Qed.

Lemma run_level_facts ops s :
  counted s → level_by_count s → unverified_at_zero s →
  counted (run ops s) ∧ level_by_count (run ops s) ∧
  unverified_at_zero (run ops s).
Proof.
  revert s. induction ops as [|[o now] ops IH]; intros s Hc Hl Hu; simpl;
    [done|].
  apply IH; [by apply step_counted|by apply step_level_by_count|
             by apply step_unverified_at_zero].
Qed.

Lemma init_level_facts dao ops :
  counted (run ops (init dao)) ∧ level_by_count (run ops (init dao)) ∧
  unverified_at_zero (run ops (init dao)).
Proof.
  apply run_level_facts; [apply init_counted| |];
    intros id sub; unfold init; simpl; by rewrite lookup_empty.
Qed.

(** A step that does not store [id] keeps the count of the records
    appended since [id] was stored. *)
Lemma step_since_stored base id o now s :
  stores id o now = false →
  since_stored base id s → since_stored base id (step o now s).
Proof.
  intros Hst (sub & Hsub & Hbase & Hcount & Hlevel). destruct o.
  3-10: unfold since_stored, getVerificationChain;
    edestruct step_other_submissions as [-> ->]; [done|done|];
    by exists sub.
  - simpl in *. unfold submitScore.
    destruct (validateScores cq doc test innov comm) eqn:Hv; simpl;
      [|by exists sub].
    simpl in Hst. apply bool_decide_eq_false in Hst.
    exists sub. unfold getVerificationChain. simpl.
    by rewrite lookup_insert_ne.
  - simpl. unfold verifySubmission.
    destruct (submissions s !! submissionId) as [sub0|] eqn:Hsub0;
      [|by exists sub].
    case_match; [by exists sub|]. simpl.
    unfold since_stored, getVerificationChain. simpl.
    rewrite !lookup_insert. case_decide as Hid; [subst submissionId|].
    + rewrite Hsub in Hsub0. injection Hsub0 as <-.
      eexists. split; [done|]. simpl.
      unfold getVerificationChain in Hbase, Hcount, Hlevel.
      rewrite length_app. simpl.
      split; [lia|]. split; [|lia].
      intros Hlt. rewrite Hcount by lia.
      unfold u8, two8. rewrite Z.mod_small; lia.
    + by exists sub.
Qed.

Lemma run_since_stored base id ops s :
  times_stored id ops = 0%nat →
  since_stored base id s → since_stored base id (run ops s).
Proof.
  revert s. induction ops as [|[o now] ops IH]; intros s Ht Hs; simpl;
    [done|].
  simpl in Ht. destruct (stores id o now) eqn:Hst; [lia|].
  apply IH; [lia|]. by apply step_since_stored.
Qed.

(** A step that stores [id] starts the count at the records the chain
    holds. *)
Lemma step_stores id o now s :
  stores id o now = true →
  getVerificationChain (step o now s) id = getVerificationChain s id ∧
  since_stored (length (getVerificationChain s id)) id (step o now s).
Proof.
  intros Hst. destruct o; try done. simpl in *.
  apply andb_true_iff in Hst as [Hv Hid]. apply bool_decide_eq_true in Hid.
  unfold submitScore. rewrite Hv. simpl.
  unfold since_stored, getVerificationChain. simpl. split; [done|].
  rewrite Hid. eexists. split; [apply lookup_insert_eq|]. simpl.
  split; [lia|]. split; [|done]. intros _. lia.
Qed.

Lemma step_not_stored id o now s :
  stores id o now = false →
  submissions s !! id = None → submissions (step o now s) !! id = None.
Proof.
  intros Hst Hid. destruct o.
  3-10: by edestruct step_other_submissions as [-> _].
  - simpl in *. unfold submitScore.
    destruct (validateScores cq doc test innov comm); simpl; [|done].
    simpl in Hst. apply bool_decide_eq_false in Hst.
    by rewrite lookup_insert_ne.
  - by apply verifySubmission_keys.
Qed.

(** In a run that stores [id] at most once, the counter of the submission
    counts the records of its chain. *)
Lemma run_stored_once id ops : ∀ s,
  chains_closed s →
  (submissions s !! id = None ∧ (times_stored id ops ≤ 1)%nat) ∨
  (since_stored 0 id s ∧ times_stored id ops = 0%nat) →
  is_Some (submissions (run ops s) !! id) →
  since_stored 0 id (run ops s).
Proof.
  induction ops as [|[o now] ops IH]; intros s Hcl Hs Hsome; simpl in *.
  - destruct Hs as [[Hnone _]|[Hs _]]; [|done].
    rewrite Hnone in Hsome. by destruct Hsome.
  - assert (Hcl' := step_chains_closed o now s Hcl).
    destruct (stores id o now) eqn:Hst.
    + destruct Hs as [[Hnone Ht]|[_ Ht]]; [|lia].
      apply IH; [done| |done]. right. split; [|lia].
      destruct (step_stores id o now s Hst) as [_ Hstored].
      unfold getVerificationChain in Hstored.
      by rewrite (Hcl _ Hnone) in Hstored.
    + apply IH; [done| |done].
      destruct Hs as [[Hnone Ht]|[Hs Ht]].
      * left. split; [by apply step_not_stored|lia].
      * right. split; [by apply step_since_stored|lia].
Qed.

(** The level of a submission from the records appended since it was
    stored. *)
Lemma since_stored_audit_complete base id s sub :
  level_by_count s →
  since_stored base id s →
  submissions s !! id = Some sub →
  let n := length (getVerificationChain s id) in
  (n - base < 256)%nat →
  verificationLevel sub = AUDIT_COMPLETE ↔
  (3 ≤ n - base)%nat ∧
  approved <$> last (getVerificationChain s id) = Some true.
Proof.
  intros Hl (sub' & Hsub' & Hbase & Hcount & Hlevel) Hsub n Hlt.
  rewrite Hsub in Hsub'. injection Hsub' as <-.
  specialize (Hcount Hlt). fold n in Hbase, Hcount, Hlevel.
  destruct (decide (n = base)) as [Heq|Hne].
  - rewrite (Hlevel Heq). split; [done|]. intros [? _]. lia.
  - destruct (Hl id sub Hsub ltac:(lia)) as (r & Hlast & ->).
    rewrite Hlast, Hcount. simpl. unfold next_level.
    destruct (3 <=? Z.of_nat (n - base)) eqn:H3.
    + apply Z.leb_le in H3. destruct (approved r); split; try done.
      * intros _. split; [lia|done].
      * by intros [_ [=]].
    + apply Z.leb_gt in H3.
      split; [by repeat case_match|]. intros [? _]. lia.
Qed.

(** C3 (as the code has it). After every sequence of oracle operations and
    for every submission:
    - with fewer than 256 verification records, a submission at
      [AUDIT_COMPLETE] has at least 3 records and the most recent one is an
      approval; conversely, if [submitScore] stored the id at most once, a
      submission with at least 3 records, the most recent one an approval,
      is at [AUDIT_COMPLETE];
    - whatever was stored before under the id: counting the records
      appended since [submitScore] last stored the submission, and with
      fewer than 256 of them, the level is [AUDIT_COMPLETE] if and only if
      at least 3 have been appended and the most recent one is an approval;
    - whatever the number of records, a submission at [AUDIT_COMPLETE] has
      at least 3 records, one of them an approval: with fewer than 3
      records, or with rejections only, it is never at [AUDIT_COMPLETE]. *)
Theorem C3_quorum_gating dao ops id sub
    (s := run ops (init dao))
    (Hsub : submissions s !! id = Some sub) :
  let chain := getVerificationChain s id in
  ((length chain < 256)%nat →
   (getVerificationStatus s id = AUDIT_COMPLETE →
    (3 ≤ length chain)%nat ∧ approved <$> last chain = Some true) ∧
   ((times_stored id ops ≤ 1)%nat →
    (3 ≤ length chain)%nat ∧ approved <$> last chain = Some true →
    getVerificationStatus s id = AUDIT_COMPLETE)) ∧
  (∀ ops1 o now ops2,
     ops = ops1 ++ (o, now) :: ops2 →
     stores id o now = true → times_stored id ops2 = 0%nat →
     let base := length (getVerificationChain (run ops1 (init dao)) id) in
     (length chain - base < 256)%nat →
     (getVerificationStatus s id = AUDIT_COMPLETE ↔
      (3 ≤ length chain - base)%nat ∧
      approved <$> last chain = Some true)) ∧
  (getVerificationStatus s id = AUDIT_COMPLETE →
   (3 ≤ length chain)%nat ∧ ∃ r, r ∈ chain ∧ approved r = true).
Proof.
  intros chain.
  destruct (init_level_facts dao ops) as (Hc & Hl & Hu).
  destruct (run_quorum_facts ops (init dao) (init_quorum_facts dao))
    as (_ & Ha & _).
  fold s in Hc, Hl, Hu, Ha.
  unfold getVerificationStatus. rewrite Hsub.
  split; [|split].
  - intros Hlen. split.
    + intros Hlevel.
      destruct (Hc id sub Hsub) as (Hrange & Hle & _). fold chain in Hle.
      destruct (decide (verifierCount sub = 0)) as [H0|H0].
      { destruct (Hu id sub Hsub H0) as [Hun|Hwrap]; [congruence|].
        fold chain in Hwrap. lia. }
      destruct (Hl id sub Hsub ltac:(lia)) as (r & Hlast & Hlev).
      fold chain in Hlast. rewrite Hlast. simpl.
      rewrite Hlevel in Hlev. symmetry in Hlev.
      apply next_level_audit_complete in Hlev as [[H3 ->]|[? ?]]; [|done].
      split; [lia|done].
    + intros Honce Hquorum.
      assert (Hs : since_stored 0 id s).
      { apply run_stored_once; [done| |exact (mk_is_Some _ _ Hsub)].
        left. split; [|done]. unfold init; simpl. apply lookup_empty. }
      apply (since_stored_audit_complete 0 id s sub Hl Hs Hsub).
      * fold chain. lia.
      * fold chain. rewrite Nat.sub_0_r. done.
  - intros ops1 o now ops2 Hops Hst Hnone. cbv zeta.
    set (base := length (getVerificationChain (run ops1 (init dao)) id)).
    intros Hlt.
    assert (Hs : since_stored base id s).
    { unfold s. rewrite Hops.
      change (ops1 ++ (o, now) :: ops2) with (ops1 ++ [(o, now)] ++ ops2).
      rewrite run_app. simpl.
      apply run_since_stored; [done|].
      apply (step_stores id o now (run ops1 (init dao)) Hst). }
    apply (since_stored_audit_complete base id s sub Hl Hs Hsub Hlt).
  - apply (Ha id sub Hsub).
Qed.

(** C8 (as the code has it). For a submission with fewer than 255 records
    so far, a successful approving [verifySubmission] never lowers the
    level, and a successful rejecting one sets the level to [BASIC]
    whatever it was before. *)
Theorem C8_level_after_verification dao ops id sub v appr notes now s'
    (s := run ops (init dao))
    (Hsub : submissions s !! id = Some sub)
    (Hlen : (length (getVerificationChain s id) < 255)%nat)
    (Hok : verifySubmission id v appr notes now s = (true, s')) :
  (appr = true →
   level_index (verificationLevel sub)
     ≤ level_index (getVerificationStatus s' id)) ∧
  (appr = false → getVerificationStatus s' id = BASIC).
Proof.
  destruct (run_quorum_facts ops (init dao) (init_quorum_facts dao))
    as (Hc & _ & Hq).
  fold s in Hc, Hq.
  destruct (Hc id sub Hsub) as (Hrange & Hle & _).
  specialize (Hq id sub Hsub ltac:(lia)).
  unfold verifySubmission in Hok. rewrite Hsub in Hok.
  destruct (negb (isVerifier s v)); [done|].
  injection Hok as <-. unfold getVerificationStatus; simpl.
  rewrite lookup_insert_eq; simpl.
  destruct (u8_succ_cases _ Hrange) as [[_ ->]|[? _]]; [|lia].
  unfold next_level.
  destruct (3 <=? verifierCount sub + 1) eqn:H3.
  { split; intros ->; [|done]. destruct (verificationLevel sub); simpl; lia. }
  apply Z.leb_gt in H3.
  destruct (1 <=? verifierCount sub + 1) eqn:H1; [|apply Z.leb_gt in H1; lia].
  split; intros ->; [|done].
  destruct (verificationLevel sub); simpl; try lia.
  specialize (Hq eq_refl). lia.
Qed.

End OracleQuorum.

(** The theorem at a submission approved by three verifications, and at a
    submission stored again after three approvals and approved three more
    times. *)
Lemma C3_quorum_gating_witness :
  let again :=
    (Oracle.SubmitScore "bob" 100 100 100 100 100 "" (replicate 32 0), 2) in
  let s := Oracle.run (example_setup ++ replicate 3 approve_by_v)
                      (Oracle.fresh 0) in
  let s' := Oracle.run (example_setup ++ replicate 3 approve_by_v
                          ++ again :: replicate 3 approve_by_v)
                       (Oracle.fresh 0) in
  (Oracle.getVerificationStatus s "sub_bob_2" = AUDIT_COMPLETE ↔
   (3 ≤ length (Oracle.getVerificationChain s "sub_bob_2"))%nat ∧
   Oracle.approved <$> last (Oracle.getVerificationChain s "sub_bob_2")
     = Some true) ∧
  (Oracle.getVerificationStatus s' "sub_bob_2" = AUDIT_COMPLETE ↔
   (3 ≤ length (Oracle.getVerificationChain s' "sub_bob_2") - 3)%nat ∧
   Oracle.approved <$> last (Oracle.getVerificationChain s' "sub_bob_2")
     = Some true).
Proof.
  intros again s s'.
  lazymatch eval vm_compute in (Oracle.submissions s !! "sub_bob_2") with
  | Some ?x => pose (sub := x)
  end.
  lazymatch eval vm_compute in (Oracle.submissions s' !! "sub_bob_2") with
  | Some ?x => pose (sub' := x)
  end.
  assert (Hsub : Oracle.submissions s !! "sub_bob_2" = Some sub)
    by (vm_compute; reflexivity).
  assert (Hsub' : Oracle.submissions s' !! "sub_bob_2" = Some sub')
    by (vm_compute; reflexivity).
  split.
  - destruct (proj1 (C3_quorum_gating (Dao.init (Token.init 0))
                       (example_setup ++ replicate 3 approve_by_v)
                       "sub_bob_2" sub Hsub) ltac:(vm_compute; lia))
      as [Honly Hif].
    split; [exact Honly|]. apply Hif. vm_compute. lia.
  - refine (proj1 (proj2 (C3_quorum_gating (Dao.init (Token.init 0))
                            (example_setup ++ replicate 3 approve_by_v
                               ++ again :: replicate 3 approve_by_v)
                            "sub_bob_2" sub' Hsub'))
              (example_setup ++ replicate 3 approve_by_v) _ _
              (replicate 3 approve_by_v) _ _ _ _).
    + by rewrite <- app_assoc.
    + vm_compute. reflexivity.
    + vm_compute. reflexivity.
    + vm_compute. lia.
Defined.

(** C3 fails as stated: the verifier count is 8 bits wide.  After 255
    approvals the level is [AUDIT_COMPLETE]; the 256th verification, a
    rejection, wraps the count to 0, for which [verifySubmission] assigns
    no level: the submission stays at [AUDIT_COMPLETE] with a rejection as
    its most recent record. *)
Lemma C3_counterexample :
  let s := Oracle.run (example_setup ++ replicate 255 approve_by_v
                                     ++ [reject_by_v])
                      (Oracle.fresh 0) in
  ¬ (Oracle.getVerificationStatus s "sub_bob_2" = AUDIT_COMPLETE ↔
     (3 ≤ length (Oracle.getVerificationChain s "sub_bob_2"))%nat ∧
     Oracle.approved <$> last (Oracle.getVerificationChain s "sub_bob_2")
       = Some true).
Proof.
  intros s [Hdir _].
  assert (Hlevel : Oracle.getVerificationStatus s "sub_bob_2" = AUDIT_COMPLETE)
    by (vm_compute; reflexivity).
  destruct (Hdir Hlevel) as [_ Hlast].
  vm_compute in Hlast. discriminate.
Qed.

(** The other way C3 fails: [submitScore] for the same contributor at the
    same clock reading re-creates the submission (level [UNVERIFIED], count
    0) under an id whose chain already holds three approvals. *)
Lemma quorum_lost_on_reissue :
  let s := Oracle.run (example_setup ++ replicate 3 approve_by_v
                         ++ [(Oracle.SubmitScore "bob" 100 100 100 100 100 ""
                                (replicate 32 0), 2)])
                      (Oracle.fresh 0) in
  Oracle.getVerificationStatus s "sub_bob_2" = UNVERIFIED ∧
  length (Oracle.getVerificationChain s "sub_bob_2") = 3%nat ∧
  Oracle.approved <$> last (Oracle.getVerificationChain s "sub_bob_2")
    = Some true.
Proof. vm_compute. repeat split. Qed.

(** The theorem at a submission with one approval so far. *)
Lemma C8_level_after_verification_witness :
  let s := Oracle.run (example_setup ++ [approve_by_v]) (Oracle.fresh 0) in
  let up := (Oracle.verifySubmission "sub_bob_2" "v" true "ok" 5 s).2 in
  let down := (Oracle.verifySubmission "sub_bob_2" "v" false "no" 5 s).2 in
  level_index (Oracle.getVerificationStatus s "sub_bob_2")
    ≤ level_index (Oracle.getVerificationStatus up "sub_bob_2") ∧
  Oracle.getVerificationStatus down "sub_bob_2" = BASIC.
Proof.
  intros s up down.
  lazymatch eval vm_compute in (Oracle.submissions s !! "sub_bob_2") with
  | Some ?x => pose (sub := x)
  end.
  assert (Hsub : Oracle.submissions s !! "sub_bob_2" = Some sub)
    by (vm_compute; reflexivity).
  assert (Hlen : (length (Oracle.getVerificationChain s "sub_bob_2") < 255)%nat)
    by (vm_compute; lia).
  assert (Hlev : Oracle.verificationLevel sub
                 = Oracle.getVerificationStatus s "sub_bob_2")
    by (vm_compute; reflexivity).
  rewrite <- Hlev. split.
  - refine (proj1 (C8_level_after_verification (Dao.init (Token.init 0))
                     (example_setup ++ [approve_by_v]) "sub_bob_2" sub "v" true
                     "ok" 5 up Hsub Hlen _) eq_refl).
    vm_compute. reflexivity.
  - refine (proj2 (C8_level_after_verification (Dao.init (Token.init 0))
                     (example_setup ++ [approve_by_v]) "sub_bob_2" sub "v" false
                     "no" 5 down Hsub Hlen _) eq_refl).
    vm_compute. reflexivity.
Defined.

(** C8 fails as stated: after one approval the level is [ADVANCED]; a
    second, rejecting verification succeeds and moves it back to
    [BASIC]. *)
Lemma C8_counterexample :
  let s := Oracle.run (example_setup ++ [approve_by_v]) (Oracle.fresh 0) in
  let r := Oracle.verifySubmission "sub_bob_2" "v" false "no" 4 s in
  r.1 = true ∧
  Oracle.getVerificationStatus s "sub_bob_2" = ADVANCED ∧
  Oracle.getVerificationStatus r.2 "sub_bob_2" = BASIC ∧
  ¬ (level_index (Oracle.getVerificationStatus s "sub_bob_2")
       ≤ level_index (Oracle.getVerificationStatus r.2 "sub_bob_2")).
Proof. vm_compute. repeat split. intros H. apply H. reflexivity. Qed.

(** Past the width of the counter an approval lowers the level too: the
    257th approval brings the count to 1 and the level from
    [AUDIT_COMPLETE] to [ADVANCED]. *)
Lemma level_lowered_after_wrap :
  let s := Oracle.run (example_setup ++ replicate 256 approve_by_v)
                      (Oracle.fresh 0) in
  let r := Oracle.verifySubmission "sub_bob_2" "v" true "ok" 4 s in
  r.1 = true ∧
  Oracle.getVerificationStatus s "sub_bob_2" = AUDIT_COMPLETE ∧
  Oracle.getVerificationStatus r.2 "sub_bob_2" = ADVANCED.
Proof. vm_compute. repeat split. Qed.

(** ** The oracle: forwarding scores to the registry *)

Section OracleForwarding.
Import Oracle.

Lemma submitCompositeScore_points c sc now d x :
  Dao.contributors d !! c = Some x →
  ∃ x',
    Dao.contributors (Dao.submitCompositeScore c sc now d).2 !! c = Some x' ∧
    (Dao.submitCompositeScore c sc now d).1 = true ∧
    Dao.pointsEarned x' = u64 (Dao.pointsEarned x + Dao.composite_of sc).
Proof.
  intros Hc. unfold Dao.submitCompositeScore. rewrite Hc. simpl.
  unfold Dao.updateTier. rewrite !lookup_insert_eq.
  eexists. split; [reflexivity|]. done.
Qed.

Lemma registerWithDao_forwards id sub now s x :
  submissions s !! id = Some sub →
  below_advanced (verificationLevel sub) = false →
  Dao.contributors (daoContract s) !! targetContributor sub = Some x →
  let r := registerWithDao id now s in
  r.1 = true ∧
  submissions r.2 = submissions s ∧
  ∃ x', Dao.contributors (daoContract r.2) !! targetContributor sub = Some x' ∧
        Dao.pointsEarned x'
          = u64 (Dao.pointsEarned x + Dao.composite_of (scores sub)).
Proof.
  intros Hsub Hlevel Hc. unfold registerWithDao. rewrite Hsub, Hlevel.
  destruct (submitCompositeScore_points (targetContributor sub) (scores sub)
              now (daoContract s) x Hc) as (x' & Hx' & Hok & Hpts).
  destruct (Dao.submitCompositeScore _ _ _ _) as [ok d]. simpl in *.
  subst ok. eauto.
Qed.

(** C6 (as the code has it). In every state, [registerWithDao] returns
    [false] and changes nothing when the submission is unknown, when its
    level is [UNVERIFIED] or [BASIC], and when its target is not a
    registered contributor.  For a submission at [ADVANCED] or
    [AUDIT_COMPLETE] whose target is a registered contributor, every call
    succeeds and adds the composite score of the submission to the
    contributor's [pointsEarned] (64-bit addition): no record is kept of a
    submission having been forwarded, and a second call adds the score a
    second time. *)
Theorem C6_registerWithDao_adds_each_time :
  (∀ id now s,
     submissions s !! id = None ∨
     getVerificationStatus s id = UNVERIFIED ∨
     getVerificationStatus s id = BASIC →
     registerWithDao id now s = (false, s)) ∧
  (∀ id sub now s,
     submissions s !! id = Some sub →
     Dao.contributors (daoContract s) !! targetContributor sub = None →
     registerWithDao id now s = (false, s)) ∧
  (∀ id sub x s now1 now2,
     submissions s !! id = Some sub →
     verificationLevel sub = ADVANCED ∨
     verificationLevel sub = AUDIT_COMPLETE →
     Dao.contributors (daoContract s) !! targetContributor sub = Some x →
     let composite := Dao.composite_of (scores sub) in
     let points t :=
       Dao.pointsEarned
         (Dao.getContributor (daoContract t) (targetContributor sub)) in
     let r1 := registerWithDao id now1 s in
     let r2 := registerWithDao id now2 r1.2 in
     r1.1 = true ∧ r2.1 = true ∧
     points r1.2 = u64 (points s + composite) ∧
     points r2.2 = u64 (points r1.2 + composite)).
Proof.
  split; [|split].
  - intros id now s Hlow. unfold registerWithDao, getVerificationStatus in *.
    destruct (submissions s !! id) as [sub|]; [|done].
    destruct Hlow as [?|[->| ->]]; done.
  - intros id sub now s Hsub Hnone. unfold registerWithDao. rewrite Hsub.
    destruct (below_advanced (verificationLevel sub)); [done|].
    unfold Dao.submitCompositeScore. rewrite Hnone. by destruct s.
  - intros id sub x s now1 now2 Hsub Hhigh Hreg composite points r1 r2.
    assert (Hlevel : below_advanced (verificationLevel sub) = false)
      by (by destruct Hhigh as [-> | ->]).
    destruct (registerWithDao_forwards id sub now1 s x Hsub Hlevel Hreg)
      as (Hok1 & Hsubs1 & x1 & Hx1 & Hp1).
    fold r1 in Hok1, Hsubs1, Hx1.
    assert (Hsub1 : submissions r1.2 !! id = Some sub) by (by rewrite Hsubs1).
    destruct (registerWithDao_forwards id sub now2 r1.2 x1 Hsub1 Hlevel Hx1)
      as (Hok2 & _ & x2 & Hx2 & Hp2).
    fold r2 in Hok2, Hx2.
    subst points. unfold Dao.getContributor. simpl.
    rewrite Hreg, Hx1, Hx2. simpl. done.
Qed.

End OracleForwarding.

(** The theorem at an unknown id, at a submission not yet verified, at a
    rejected one, and at a submission scored 100 and approved once. *)
Lemma C6_registerWithDao_adds_each_time_witness :
  let s0 := Oracle.run example_setup (Oracle.fresh 0) in
  let s1 := Oracle.run (example_setup ++ [reject_by_v]) (Oracle.fresh 0) in
  let s := Oracle.run (example_setup ++ [approve_by_v]) (Oracle.fresh 0) in
  let points t :=
    Dao.pointsEarned (Dao.getContributor (Oracle.daoContract t) "bob") in
  let r1 := Oracle.registerWithDao "sub_bob_2" 5 s in
  let r2 := Oracle.registerWithDao "sub_bob_2" 6 r1.2 in
  Oracle.registerWithDao "sub_carol_9" 5 s = (false, s) ∧
  Oracle.registerWithDao "sub_bob_2" 5 s0 = (false, s0) ∧
  Oracle.registerWithDao "sub_bob_2" 5 s1 = (false, s1) ∧
  r1.1 = true ∧ r2.1 = true ∧
  points r1.2 = 100 ∧ points r2.2 = 200.
Proof.
  intros s0 s1 s points r1 r2.
  destruct C6_registerWithDao_adds_each_time as (Hlow & _ & Hhigh).
  lazymatch eval vm_compute in (Oracle.submissions s !! "sub_bob_2") with
  | Some ?v => pose (sub := v)
  end.
  lazymatch eval vm_compute in
      (Dao.contributors (Oracle.daoContract s) !! "bob") with
  | Some ?v => pose (x := v)
  end.
  assert (Hsub : Oracle.submissions s !! "sub_bob_2" = Some sub)
    by (vm_compute; reflexivity).
  assert (Hreg : Dao.contributors (Oracle.daoContract s)
                   !! Oracle.targetContributor sub = Some x)
    by (vm_compute; reflexivity).
  destruct (Hhigh "sub_bob_2" sub x s 5 6 Hsub (or_introl eq_refl) Hreg)
    as (H1 & H2 & H3 & H4).
  refine (conj (Hlow "sub_carol_9" 5 s (or_introl _))
         (conj (Hlow "sub_bob_2" 5 s0 (or_intror (or_introl _)))
         (conj (Hlow "sub_bob_2" 5 s1 (or_intror (or_intror _)))
         (conj H1 (conj H2 (conj H3 H4)))))); vm_compute; reflexivity.
Defined.

(** C6 fails as stated: the second [registerWithDao] of the same submission
    succeeds and adds the composite score again, 100 points becoming 200. *)
Lemma C6_counterexample :
  let s := Oracle.run (example_setup ++ [approve_by_v]) (Oracle.fresh 0) in
  let points t :=
    Dao.pointsEarned (Dao.getContributor (Oracle.daoContract t) "bob") in
  let r1 := Oracle.registerWithDao "sub_bob_2" 5 s in
  let r2 := Oracle.registerWithDao "sub_bob_2" 6 r1.2 in
  Oracle.getVerificationStatus s "sub_bob_2" = ADVANCED ∧
  r1.1 = true ∧ r2.1 = true ∧
  points r1.2 = 100 ∧ points r2.2 = 200 ∧
  points r2.2 ≠ points r1.2.
Proof. vm_compute. repeat split. discriminate. Qed.

(** * Further properties of the ledger *)

Section TokenOperations.
Import Token.

(** X1. A ledger operation that returns [false] leaves the whole state as
    it was. *)
Theorem failed_ledger_operation_changes_nothing o now s :
  (step o now s).1 = false → (step o now s).2 = s.
Proof.
  destruct o; simpl;
    unfold transfer, transferFrom, approve, increaseAllowance,
      decreaseAllowance, mint, burn, distributeReward, treasuryWithdraw,
      treasuryDeposit, registerAccount;
    repeat case_match; simpl; done.
Qed.

Lemma init_treasury_allowances now : treasury_allowances (init now).
Proof. intros o sp v. unfold init; simpl. by rewrite lookup_empty. Qed.

Lemma allowance_other_owner s owner spender :
  treasury_allowances s → owner ≠ treasuryAddress →
  allowance s owner spender = 0.
Proof.
  intros Hs Hne. unfold allowance.
  destruct (allowances s !! (owner, spender)) eqn:E; [|done].
  by destruct (Hne (Hs _ _ _ E)).
Qed.

Lemma step_treasury_allowances o now s :
  treasury_allowances s → treasury_allowances (step o now s).2.
Proof.
  intros Hs. destruct o; simpl;
    unfold transfer, transferFrom, approve, increaseAllowance,
      decreaseAllowance, mint, burn, distributeReward, treasuryWithdraw,
      treasuryDeposit, registerAccount;
    repeat case_match; simpl; try done.
  all: intros o' sp v; simpl; rewrite lookup_insert; case_decide as Hk;
    [|by apply Hs]; intros _; try congruence.
  (* transferFrom: the key it writes held an allowance already *)
  injection Hk as <- <-.
  destruct (decide (owner = treasuryAddress)) as [|Hne]; [done|].
  rewrite (allowance_other_owner s owner recipient Hs Hne) in *.
  unfold validateAmount in *.
  repeat match goal with
  | H : _ || _ = false |- _ => apply orb_false_iff in H as [? ?]
  | H : negb _ = false |- _ => apply negb_false_iff in H
  | H : _ && _ = true |- _ => apply andb_true_iff in H as [? ?]
  | H : (_ <? _) = _ |- _ => first [apply Z.ltb_lt in H | apply Z.ltb_ge in H]
  end; lia.
Qed.

Lemma run_treasury_allowances ops s :
  treasury_allowances s → treasury_allowances (run ops s).
Proof.
  revert s. induction ops as [|[o now] ops IH]; intros s H; simpl; [done|].
  by apply IH, step_treasury_allowances.
Qed.

(** X2. [approve], [increaseAllowance] and [decreaseAllowance] write the
    allowances of the treasury only, so in every state the ledger reaches
    [transferFrom] on behalf of any other owner fails and changes
    nothing. *)
Theorem transferFrom_other_owner_fails now0 ops owner recipient amount now
    (Howner : owner ≠ treasuryAddress) :
  let s := run ops (init now0) in
  allowance s owner recipient = 0 ∧
  transferFrom owner recipient amount now s = (false, s).
Proof.
  intros s.
  pose proof (run_treasury_allowances ops _ (init_treasury_allowances now0))
    as Hs. fold s in Hs.
  pose proof (allowance_other_owner s owner recipient Hs Howner) as H0.
  split; [done|]. unfold transferFrom. rewrite H0.
  destruct (negb (validateAddress owner) || negb (validateAddress recipient)
            || negb (validateAmount s amount)) eqn:E; [done|].
  apply orb_false_iff in E as [_ E]. apply negb_false_iff in E.
  unfold validateAmount in E. apply andb_true_iff in E as [E _].
  apply Z.ltb_lt in E.
  destruct (0 <? amount) eqn:E'; [done|]. apply Z.ltb_ge in E'. lia.
Qed.

End TokenOperations.

(** X2 at the approval the tests make: the allowance is the treasury's, a
    transfer on behalf of the owner named in the test fails. *)
Lemma transferFrom_other_owner_fails_witness :
  let s := Token.run [(Token.RegisterAccount "owner_1", 1);
                      (Token.Approve "spender_1" 5000000000, 2)]
                     (Token.init 0) in
  Token.allowance s "owner_1" "spender_1" = 0 ∧
  Token.transferFrom "owner_1" "spender_1" 1 3 s = (false, s).
Proof.
  refine (transferFrom_other_owner_fails 0
            [(Token.RegisterAccount "owner_1", 1);
             (Token.Approve "spender_1" 5000000000, 2)]
            "owner_1" "spender_1" 1 3 _).
  discriminate.
Defined.

(** X1 at a transfer of more than the supply. *)
Lemma failed_ledger_operation_changes_nothing_witness :
  (Token.step (Token.Transfer "alice" 100000000001) 1 (Token.init 0)).2
    = Token.init 0.
Proof.
  refine (failed_ledger_operation_changes_nothing
            (Token.Transfer "alice" 100000000001) 1 (Token.init 0) _).
  vm_compute. reflexivity.
Defined.

Section TokenTreasury.
Import Token.

Lemma bal_bump a m b : bal (bump_nonce a m) b = bal m b.
Proof.
  unfold bump_nonce. rewrite bal_insert. case_decide; [by subst|done].
Qed.

Lemma init_treasury_in_step now : treasury_in_step (init now).
Proof.
  unfold treasury_in_step, init, bal, account_at; simpl.
  rewrite lookup_singleton_eq. simpl. split; [done|]. by vm_compute.
Qed.

Lemma neq_treasury a :
  negb (String.eqb a treasuryAddress) = true → a ≠ treasuryAddress.
Proof. intros H ->. by vm_compute in H. Qed.

Lemma step_treasury_in_step o now s :
  keeps_treasury_counter o = true →
  treasury_in_step s → treasury_in_step (step o now s).2.
Proof.
  intros Ho [Heq Hrange]. unfold treasury_in_step.
  assert (Hu : ∀ z, 0 ≤ u64 z < two64)
    by (intros z; unfold u64, two64; by apply Z.mod_pos_bound).
  destruct o; simpl in Ho; try done; simpl;
    unfold approve, increaseAllowance, decreaseAllowance, mint, burn,
      distributeReward, treasuryWithdraw, treasuryDeposit, registerAccount;
    repeat case_match; simpl; try done;
    try apply neq_treasury in Ho;
    rewrite ?bal_update, ?bal_ensure, ?bal_update, ?bal_ensure, ?bal_insert;
    repeat case_decide; try congruence;
    rewrite ?Heq; try done; split; try done; try apply Hu;
    try (rewrite Heq in Hrange; exact Hrange).
  (* registerAccount of the treasury address: it is not registered *)
  subst account. unfold bal, account_at.
  match goal with H : accounts s !! _ = None |- _ => by rewrite H end.
Qed.

Lemma run_treasury_in_step ops : ∀ s,
  Forall (λ o, keeps_treasury_counter o.1 = true) ops →
  treasury_in_step s → treasury_in_step (run ops s).
Proof.
  induction ops as [|[o now] ops IH]; intros s Hops Hs; simpl; [done|].
  apply Forall_cons in Hops as [Ho Hops].
  by apply IH, step_treasury_in_step.
Qed.

(** X3. As long as only [distributeReward], [treasuryWithdraw],
    [treasuryDeposit], [mint] and [burn] with a counterpart other than the
    treasury, the allowance operations and [registerAccount] are used,
    [treasuryBalance] is the balance of the treasury account, and a
    successful [distributeReward] or [treasuryWithdraw] takes exactly
    [amount] from it without wrapping. *)
Theorem treasury_counter_tracks_account now0 ops recipient amount now
    (Hops : Forall (λ o, keeps_treasury_counter o.1 = true) ops)
    (Hrecipient : recipient ≠ treasuryAddress) :
  let s := run ops (init now0) in
  treasuryBalance s = balanceOf s treasuryAddress ∧
  ((distributeReward recipient amount now s).1 = true →
   balanceOf (distributeReward recipient amount now s).2 treasuryAddress
     = balanceOf s treasuryAddress - amount ∧
   0 ≤ balanceOf s treasuryAddress - amount) ∧
  ((treasuryWithdraw recipient amount now s).1 = true →
   balanceOf (treasuryWithdraw recipient amount now s).2 treasuryAddress
     = balanceOf s treasuryAddress - amount ∧
   0 ≤ balanceOf s treasuryAddress - amount).
Proof.
  intros s.
  destruct (run_treasury_in_step ops (init now0) Hops
              (init_treasury_in_step now0)) as [Heq Hrange].
  fold s in Heq, Hrange. rewrite !balanceOf_bal. split; [done|].
  unfold distributeReward, treasuryWithdraw, validateAmount.
  split.
  all: destruct (_ || _ || _) eqn:E; [done|]; intros _; simpl;
    rewrite ?bal_update, ?bal_ensure, ?bal_update;
    repeat case_decide; try congruence;
    apply orb_false_iff in E as [E Hle]; apply orb_false_iff in E as [_ E];
    apply negb_false_iff, andb_true_iff in E as [Hpos _];
    apply Z.ltb_lt in Hpos; apply Z.ltb_ge in Hle;
    rewrite <- Heq; unfold u64, two64 in *;
    (split; [apply Z.mod_small|]); lia.
Qed.

End TokenTreasury.

(** X3 after a reward and a deposit back into the treasury. *)
Lemma treasury_counter_tracks_account_witness :
  let s := Token.run [(Token.DistributeReward "alice" 500, 1);
                      (Token.TreasuryDeposit "alice" 200, 2)]
                     (Token.init 0) in
  Token.treasuryBalance s = Token.balanceOf s Token.treasuryAddress ∧
  Token.balanceOf (Token.distributeReward "bob" 700 3 s).2 Token.treasuryAddress
    = Token.balanceOf s Token.treasuryAddress - 700.
Proof.
  intros s.
  destruct (treasury_counter_tracks_account 0
              [(Token.DistributeReward "alice" 500, 1);
               (Token.TreasuryDeposit "alice" 200, 2)] "bob" 700 3)
    as (H1 & H2 & _).
  - repeat constructor.
  - discriminate.
  - split; [exact H1|]. apply H2. vm_compute. reflexivity.
Defined.

Section TokenAccounts.
Import Token.

Lemma accounts_extend_refl m : accounts_extend m m.
Proof. intros a acc H. by exists acc. Qed.

Lemma accounts_extend_trans m1 m2 m3 :
  accounts_extend m1 m2 → accounts_extend m2 m3 → accounts_extend m1 m3.
Proof.
  intros H12 H23 a acc Ha.
  destruct (H12 a acc Ha) as (acc2 & Ha2 & Haddr2 & Hc2).
  destruct (H23 a acc2 Ha2) as (acc3 & Ha3 & Haddr3 & Hc3).
  exists acc3. split; [done|]. split; congruence.
Qed.

Lemma ensure_account_extend now a m : accounts_extend m (ensure_account now a m).
Proof.
  unfold ensure_account. destruct (m !! a) eqn:Ha;
    [apply accounts_extend_refl|].
  intros b acc Hb. exists acc. rewrite lookup_insert_ne by congruence. done.
Qed.

Lemma update_balance_existing f a m :
  is_Some (m !! a) → accounts_extend m (update_balance f a m).
Proof.
  intros [acc0 Ha] b acc Hb. unfold update_balance, account_at.
  rewrite Ha; simpl. rewrite lookup_insert. case_decide; [subst|by exists acc].
  eexists. split; [done|]. simpl. split; congruence.
Qed.

Lemma bump_nonce_existing a m :
  is_Some (m !! a) → accounts_extend m (bump_nonce a m).
Proof.
  intros [acc0 Ha] b acc Hb. unfold bump_nonce, account_at.
  rewrite Ha; simpl. rewrite lookup_insert. case_decide; [subst|by exists acc].
  eexists. split; [done|]. simpl. split; congruence.
Qed.

Lemma ensure_account_is_Some now a m b :
  is_Some (m !! b) ∨ a = b → is_Some (ensure_account now a m !! b).
Proof.
  unfold ensure_account. destruct (m !! a) eqn:Ha.
  - intros [?| ->]; [done|by eexists].
  - rewrite lookup_insert. case_decide; [by eexists|]. by intros [?|?].
Qed.

Lemma update_balance_is_Some f a m b :
  is_Some (m !! b) → is_Some (update_balance f a m !! b).
Proof.
  intros Hb. unfold update_balance. rewrite lookup_insert.
  case_decide; [by eexists|done].
Qed.

Lemma step_accounts_extend o now s :
  has_treasury s →
  accounts_extend (accounts s) (accounts (step o now s).2) ∧
  has_treasury (step o now s).2.
Proof.
  intros Ht. unfold has_treasury in *.
  assert (Hext : accounts_extend (accounts s) (accounts (step o now s).2)).
  { destruct o; simpl;
      unfold transfer, transferFrom, approve, increaseAllowance,
        decreaseAllowance, mint, burn, distributeReward, treasuryWithdraw,
        treasuryDeposit, registerAccount;
      repeat case_match; simpl; try apply accounts_extend_refl.
    all: repeat first
      [ eapply accounts_extend_trans;
        [|apply bump_nonce_existing; repeat apply update_balance_is_Some;
          apply ensure_account_is_Some; eauto]
      | eapply accounts_extend_trans;
        [|apply update_balance_existing; repeat apply update_balance_is_Some;
          first [ apply ensure_account_is_Some; eauto | eauto ]]
      | eapply accounts_extend_trans; [|apply ensure_account_extend]
      | apply accounts_extend_refl ].
    intros b acc Hb. exists acc. rewrite lookup_insert_ne by congruence. done. }
  split; [done|].
  destruct Ht as [t Ht]. destruct (Hext _ _ Ht) as (t' & Ht' & _). by eexists.
Qed.

Lemma run_accounts_extend ops : ∀ s,
  has_treasury s →
  accounts_extend (accounts s) (accounts (run ops s)) ∧
  has_treasury (run ops s).
Proof.
  induction ops as [|[o now] ops IH]; intros s Ht; simpl.
  - split; [apply accounts_extend_refl|done].
  - destruct (step_accounts_extend o now s Ht) as [H1 Ht1].
    destruct (IH _ Ht1) as [H2 Ht2].
    split; [by eapply accounts_extend_trans|done].
Qed.

Lemma init_has_treasury now : has_treasury (init now).
Proof. unfold has_treasury, init; simpl. by rewrite lookup_singleton_eq. Qed.

(** X4. No ledger operation removes an account or rewrites its address or
    creation time: an account of a reachable state exists in every later
    state, the treasury account always exists, and [getAccountCount] never
    decreases. *)
Theorem accounts_are_never_removed now0 ops1 ops2 a acc
    (s1 := run ops1 (init now0)) (s2 := run ops2 s1)
    (Ha : accounts s1 !! a = Some acc) :
  accountExists s2 a = true ∧
  accountExists s2 treasuryAddress = true ∧
  (∃ acc', accounts s2 !! a = Some acc' ∧
           address acc' = address acc ∧ createdAt acc' = createdAt acc) ∧
  getAccountCount s1 ≤ getAccountCount s2.
Proof.
  destruct (run_accounts_extend ops1 _ (init_has_treasury now0)) as [_ Ht1].
  fold s1 in Ht1.
  destruct (run_accounts_extend ops2 s1 Ht1) as [Hext Ht2]. fold s2 in Hext, Ht2.
  destruct (Hext a acc Ha) as (acc' & Ha' & Haddr & Hc).
  unfold accountExists, getAccountCount.
  repeat split.
  - apply bool_decide_eq_true. by eexists.
  - by apply bool_decide_eq_true.
  - by exists acc'.
  - apply inj_le. rewrite <- !size_dom. apply subseteq_size.
    intros b [accb Hb]%elem_of_dom.
    destruct (Hext b accb Hb) as (accb' & Hb' & _).
    apply elem_of_dom. by eexists.
Qed.

End TokenAccounts.

(** X4 for the account a transfer creates. *)
Lemma accounts_are_never_removed_witness :
  let s1 := Token.run [(Token.Transfer "alice" 500, 7)] (Token.init 0) in
  let s2 := Token.run [(Token.TreasuryDeposit "alice" 500, 8);
                       (Token.Burn "alice" 1, 9)] s1 in
  Token.accountExists s2 "alice" = true ∧
  Token.getAccountCount s1 ≤ Token.getAccountCount s2.
Proof.
  intros s1 s2.
  destruct (accounts_are_never_removed 0 [(Token.Transfer "alice" 500, 7)]
              [(Token.TreasuryDeposit "alice" 500, 8); (Token.Burn "alice" 1, 9)]
              "alice" (Token.mkAccount "alice" 500 0 7))
    as (H1 & _ & _ & H4).
  - vm_compute. reflexivity.
  - split; [exact H1|exact H4].
Defined.

Section TokenHistory.
Import Token.

Lemma histories_extend_refl h : histories_extend h h.
Proof. by intros a. Qed.

Lemma push_history_extend a tx h : histories_extend h (push_history a tx h).
Proof.
  intros b. unfold push_history. rewrite lookup_insert.
  case_decide; [subst; simpl|done]. by apply prefix_app_r.
Qed.

Lemma recordTransaction_extend from to tx h :
  histories_extend h (recordTransaction from to tx h).
Proof.
  intros b. unfold recordTransaction.
  etrans; [apply push_history_extend|apply push_history_extend].
Qed.

Lemma step_histories_extend o now s :
  histories_extend (transactionHistories s)
                   (transactionHistories (step o now s).2).
Proof.
  destruct o; simpl;
    unfold transfer, transferFrom, approve, increaseAllowance,
      decreaseAllowance, mint, burn, distributeReward, treasuryWithdraw,
      treasuryDeposit, registerAccount;
    repeat case_match; simpl;
    first [apply recordTransaction_extend | apply histories_extend_refl].
Qed.

(** X5. Transaction histories are append-only: whatever operations follow,
    the history [getTransactionHistory] returns for an address starts with
    the history it returned before. *)
Theorem transaction_history_append_only ops s a :
  getTransactionHistory s a `prefix_of` getTransactionHistory (run ops s) a.
Proof.
  revert s. induction ops as [|[o now] ops IH]; intros s; simpl; [done|].
  etrans; [|apply IH]. apply step_histories_extend.
Qed.

(** X8. A successful [transfer] had a valid recipient, a positive amount
    within the total supply and a treasury account holding it; it moves
    [amount] from the treasury account to the recipient (created if
    missing), touches no other balance, leaves the total supply, the
    allowances and [treasuryBalance] as they were, and appends the hash
    ["tx_" + n], [n] the transactions counted so far, to both histories. *)
Theorem transfer_effect recipient amount now s
    (Hok : (transfer recipient amount now s).1 = true) :
  let s' := (transfer recipient amount now s).2 in
  let tx := "tx_" +:+ to_string (transactionCount s) in
  (isValidAddress recipient = true ∧ 0 < amount ≤ totalSupply s ∧
   amount ≤ balanceOf s treasuryAddress) ∧
  (recipient ≠ treasuryAddress →
   balanceOf s' recipient = u64 (balanceOf s recipient + amount) ∧
   balanceOf s' treasuryAddress = u64 (balanceOf s treasuryAddress - amount)) ∧
  (∀ a, a ≠ recipient → a ≠ treasuryAddress →
        balanceOf s' a = balanceOf s a) ∧
  (totalSupply s' = totalSupply s ∧ allowances s' = allowances s ∧
   treasuryBalance s' = treasuryBalance s) ∧
  (last (getTransactionHistory s' recipient) = Some tx ∧
   last (getTransactionHistory s' treasuryAddress) = Some tx ∧
   transactionCount s' = u64 (transactionCount s + 1)).
Proof.
  unfold transfer in *.
  destruct (negb (validateAddress recipient) || negb (validateAmount s amount))
    eqn:E; [done|].
  destruct (accounts s !! treasuryAddress) as [t|] eqn:Ht; [|done].
  destruct (balance t <? amount) eqn:Hlt; [done|]. simpl.
  apply orb_false_iff in E as [Haddr Hamt].
  apply negb_false_iff in Haddr, Hamt. unfold validateAmount in Hamt.
  apply andb_true_iff in Hamt as [Hpos Hle].
  apply Z.ltb_lt in Hpos. apply Z.leb_le in Hle. apply Z.ltb_ge in Hlt.
  assert (Hbt : balanceOf s treasuryAddress = balance t)
    by (unfold balanceOf; by rewrite Ht).
  split; [rewrite Hbt; done|].
  rewrite !balanceOf_bal. simpl.
  split; [|split; [|split; [done|]]].
  - intros Hne. rewrite !bal_bump, !bal_update, !bal_ensure.
    unfold treasuryAddress in *. by repeat case_decide.
  - intros a Ha1 Ha2. rewrite !balanceOf_bal. simpl.
    rewrite bal_bump, !bal_update, !bal_ensure.
    unfold treasuryAddress in *. repeat case_decide; congruence.
  - unfold getTransactionHistory, recordTransaction, push_history; simpl.
    rewrite !lookup_insert.
    repeat case_decide; simpl; rewrite ?last_snoc; done.
Qed.

End TokenHistory.

Section TokenRoundTrips.
Import Token.

(** X6. [increaseAllowance] followed by [decreaseAllowance] of the same
    value gives back the allowance the spender had, provided the increase
    does not overflow 64 bits. *)
Theorem increase_then_decrease_allowance spender v s
    (Hok : (increaseAllowance spender v s).1 = true)
    (Hrange : 0 ≤ allowance s treasuryAddress spender)
    (Hfit : allowance s treasuryAddress spender + v < two64) :
  let s1 := (increaseAllowance spender v s).2 in
  let r := decreaseAllowance spender v s1 in
  allowance s1 treasuryAddress spender
    = allowance s treasuryAddress spender + v ∧
  r.1 = true ∧
  allowance r.2 treasuryAddress spender = allowance s treasuryAddress spender.
Proof.
  unfold increaseAllowance in *.
  destruct (negb (validateAddress spender) || negb (validateAmount s v)) eqn:E;
    [done|]. simpl.
  assert (Hv : 0 < v).
  { apply orb_false_iff in E as [_ E]. apply negb_false_iff in E.
    apply andb_true_iff in E as [E _]. by apply Z.ltb_lt. }
  set (a0 := allowance s treasuryAddress spender) in *.
  set (s1 := set_allowances _ s).
  assert (Hu : u64 (a0 + v) = a0 + v)
    by (unfold u64; apply Z.mod_small; lia).
  assert (H1 : allowance s1 treasuryAddress spender = a0 + v).
  { unfold allowance, s1; simpl. by rewrite lookup_insert_eq. }
  split; [done|].
  assert (Hdec : decreaseAllowance spender v s1
                 = (true, set_allowances
                            (<[(treasuryAddress, spender) := u64 (a0 + v - v)]>
                               (allowances s1)) s1)).
  { unfold decreaseAllowance.
    change (validateAmount s1 v) with (validateAmount s v).
    rewrite E, H1.
    destruct (a0 + v <? v) eqn:Hlt; [apply Z.ltb_lt in Hlt; lia|done]. }
  rewrite Hdec. split; [done|].
  unfold allowance at 1; simpl. rewrite lookup_insert_eq.
  unfold u64. replace (a0 + v - v) with a0 by lia. apply Z.mod_small. lia.
Qed.

(** X7. [mint] followed by [burn] of the same amount on the same account
    gives back the balance of the account and the total supply, provided
    the minting overflows neither. *)
Theorem mint_then_burn account amount now s
    (Hok : (mint account amount now s).1 = true)
    (Hbal : 0 ≤ balanceOf s account)
    (Hsup : 0 ≤ totalSupply s)
    (Hfitb : balanceOf s account + amount < two64)
    (Hfits : totalSupply s + amount < two64) :
  let s1 := (mint account amount now s).2 in
  let r := burn account amount s1 in
  balanceOf s1 account = balanceOf s account + amount ∧
  totalSupply s1 = totalSupply s + amount ∧
  r.1 = true ∧
  balanceOf r.2 account = balanceOf s account ∧
  totalSupply r.2 = totalSupply s.
Proof.
  unfold mint in *.
  destruct (negb (validateAddress account) || negb (validateAmount s amount))
    eqn:E; [done|]. simpl.
  apply orb_false_iff in E as [Haddr Hamt].
  apply negb_false_iff in Hamt. unfold validateAmount in Hamt.
  apply andb_true_iff in Hamt as [Hpos Hle].
  apply Z.ltb_lt in Hpos. apply Z.leb_le in Hle.
  rewrite balanceOf_bal in Hbal, Hfitb.
  set (b0 := bal (accounts s) account) in *.
  set (m1 := update_balance _ account _).
  set (s1 := mkState m1 _ _ _ _ _).
  assert (Hub : u64 (b0 + amount) = b0 + amount)
    by (unfold u64; apply Z.mod_small; lia).
  assert (Hus : totalSupply s1 = totalSupply s + amount)
    by (unfold s1; simpl; unfold u64; apply Z.mod_small; lia).
  assert (Hacc : accounts s1 = m1) by done.
  assert (Hb1 : bal m1 account = b0 + amount).
  { unfold m1. rewrite bal_update, bal_ensure. by case_decide. }
  assert (Hl1 : ∃ acc1, m1 !! account = Some acc1 ∧ balance acc1 = b0 + amount).
  { unfold bal, account_at in Hb1. unfold m1, update_balance in *.
    rewrite lookup_insert_eq in *. eexists. split; [done|]. exact Hb1. }
  destruct Hl1 as (acc1 & Hl1 & Hbacc1).
  clearbody s1 m1.
  rewrite !balanceOf_bal. fold b0. rewrite Hacc.
  split; [done|]. split; [unfold u64; apply Z.mod_small; lia|].
  unfold burn, validateAmount. rewrite Haddr, Hus, Hacc, Hl1, Hbacc1.
  destruct (0 <? amount) eqn:E1; [|apply Z.ltb_ge in E1; lia].
  destruct (amount <=? totalSupply s + amount) eqn:E2;
    [|apply Z.leb_gt in E2; lia].
  destruct (b0 + amount <? amount) eqn:E3; [apply Z.ltb_lt in E3; lia|].
  simpl. split; [done|].
  rewrite bal_update, Hb1.
  case_decide; [|done]. unfold u64.
  replace (b0 + amount - amount) with b0 by lia.
  replace (totalSupply s + amount - amount) with (totalSupply s) by lia.
  split; apply Z.mod_small; lia.
Qed.

End TokenRoundTrips.

(** X8, X6 and X7 on the newly constructed ledger. *)
Lemma transfer_effect_witness :
  let s' := (Token.transfer "alice" 10000000000 1 (Token.init 0)).2 in
  Token.balanceOf s' "alice" = 10000000000 ∧
  Token.balanceOf s' Token.treasuryAddress = 90000000000 ∧
  Token.treasuryBalance s' = 100000000000 ∧
  last (Token.getTransactionHistory s' "alice") = Some "tx_0".
Proof.
  intros s'.
  destruct (transfer_effect "alice" 10000000000 1 (Token.init 0))
    as (_ & Hbal & _ & (_ & _ & Htb) & Hlast & _).
  - vm_compute. reflexivity.
  - destruct Hbal as [Ha Ht]; [discriminate|].
    exact (conj Ha (conj Ht (conj Htb Hlast))).
Defined.

Lemma increase_then_decrease_allowance_witness :
  let s1 := (Token.increaseAllowance "spender_1" 700 (Token.init 0)).2 in
  Token.allowance s1 Token.treasuryAddress "spender_1" = 700 ∧
  Token.allowance (Token.decreaseAllowance "spender_1" 700 s1).2
    Token.treasuryAddress "spender_1" = 0.
Proof.
  intros s1.
  destruct (increase_then_decrease_allowance "spender_1" 700 (Token.init 0))
    as (H1 & _ & H3).
  - vm_compute. reflexivity.
  - vm_compute. discriminate.
  - vm_compute. reflexivity.
  - exact (conj H1 H3).
Defined.

Lemma mint_then_burn_witness :
  let s1 := (Token.mint "mint_test_1" 5000000000 1 (Token.init 0)).2 in
  let r := Token.burn "mint_test_1" 5000000000 s1 in
  Token.totalSupply s1 = 105000000000 ∧
  r.1 = true ∧
  Token.balanceOf r.2 "mint_test_1" = 0 ∧
  Token.totalSupply r.2 = 100000000000.
Proof.
  intros s1 r.
  destruct (mint_then_burn "mint_test_1" 5000000000 1 (Token.init 0))
    as (_ & H2 & H3 & H4 & H5).
  - vm_compute. reflexivity.
  - vm_compute. discriminate.
  - vm_compute. discriminate.
  - vm_compute. reflexivity.
  - vm_compute. reflexivity.
  - exact (conj H2 (conj H3 (conj H4 H5))).
Defined.

(** * Further properties of the registry *)

Section DaoFrames.
Import Dao.

(** A payment of the reward cycle writes the token contract and the
    contributors, nothing else. *)
Lemma payContributor_frame per ts now acc a :
  ∃ tok cs, (payContributor per ts now acc a).1
            = set_contributors cs (set_tokenContract tok acc.1).
Proof.
  destruct acc as [s n]. unfold payContributor.
  destruct (Token.distributeReward a per now (tokenContract s)) as [[] tok];
    simpl.
  - destruct (contributors s !! a); simpl; by eexists _, _.
  - exists (tokenContract s), (contributors s). by destruct s.
Qed.

Lemma payGroup_frame per ts now group : ∀ acc,
  ∃ tok cs, (foldl (payContributor per ts now) acc group).1
            = set_contributors cs (set_tokenContract tok acc.1).
Proof.
  induction group as [|a group IH]; intros acc; simpl.
  - exists (tokenContract acc.1), (contributors acc.1). by destruct acc as [[] ?].
  - destruct (IH (payContributor per ts now acc a)) as (tok & cs & ->).
    destruct (payContributor_frame per ts now acc a) as (tok' & cs' & ->).
    by exists tok, cs.
Qed.

Lemma payTier_frame groups ts now acc t :
  ∃ tok cs, (payTier groups ts now acc t).1
            = set_contributors cs (set_tokenContract tok acc.1).
Proof.
  unfold payTier. destruct (groups t) as [|a g]; [|apply payGroup_frame].
  exists (tokenContract acc.1), (contributors acc.1). by destruct acc as [[] ?].
Qed.

Lemma payTiers_frame groups ts now tiers : ∀ acc,
  ∃ tok cs, (foldl (payTier groups ts now) acc tiers).1
            = set_contributors cs (set_tokenContract tok acc.1).
Proof.
  induction tiers as [|t tiers IH]; intros acc; simpl.
  - exists (tokenContract acc.1), (contributors acc.1). by destruct acc as [[] ?].
  - destruct (IH (payTier groups ts now acc t)) as (tok & cs & ->).
    destruct (payTier_frame groups ts now acc t) as (tok' & cs' & ->).
    by exists tok, cs.
Qed.

(** The reward cycle leaves proposals, votes and the proposal counter as
    they were. *)
Lemma distributeMonthlyRewards_governance ts now s :
  let s' := (distributeMonthlyRewards ts now s).2 in
  proposals s' = proposals s ∧ votes s' = votes s ∧
  nextProposalId s' = nextProposalId s.
Proof.
  unfold distributeMonthlyRewards.
  destruct (payTiers_frame (tierGroup (contributors s)) ts now
              [FOUNDER; PLATINUM; GOLD; SILVER; RECOGNIZED] (s, 0))
    as (tok & cs & Heq).
  destruct (foldl _ _ _) as [s1 n]. simpl in Heq. subst s1. done.
Qed.

Lemma step_all_pending o now s : all_pending s → all_pending (step o now s).
Proof.
  intros Hs. destruct o; simpl; try done.
  - unfold registerContributor. by case_match.
  - unfold submitCompositeScore. by case_match.
  - unfold applyModuleBonus. by case_match.
  - intros p pr.
    destruct (distributeMonthlyRewards_governance timestamp now s)
      as (-> & _ & _). apply Hs.
  - unfold claimRewards. by repeat case_match.
  - unfold createProposal. case_match; [done|]. simpl.
    intros p pr. simpl. rewrite lookup_insert. case_decide; [|apply Hs].
    by intros [= <-].
  - unfold castVote.
    destruct (proposals s !! pid) as [p0|] eqn:Hp; [|done].
    repeat case_match; simpl; try done.
    all: intros p pr; simpl; rewrite lookup_insert; case_decide; [|apply Hs];
      intros [= <-]; simpl; exact (Hs _ _ Hp).
  - unfold executeProposal.
    destruct (proposals s !! pid) as [p0|] eqn:Hp; [|done].
    case_bool_decide as Hst; [|done].
    rewrite (Hs _ _ Hp) in Hst. done.
Qed.

Lemma run_all_pending ops s : all_pending s → all_pending (run ops s).
Proof.
  revert s. induction ops as [|[o now] ops IH]; intros s Hs; simpl; [done|].
  by apply IH, step_all_pending.
Qed.

(** X13. No operation ever marks a proposal as passed: in every state the
    registry reaches all proposals are [PENDING], and [executeProposal]
    returns [false] and changes nothing, for every proposal id. *)
Theorem executeProposal_never_succeeds tok ops pid now :
  let s := run ops (init tok) in
  (∀ p pr, proposals s !! p = Some pr → status pr = PENDING) ∧
  executeProposal pid now s = (false, s).
Proof.
  intros s.
  assert (Hs : all_pending s).
  { apply run_all_pending. intros p pr. unfold init; simpl.
    by rewrite lookup_empty. }
  split; [exact Hs|]. unfold executeProposal.
  destruct (proposals s !! pid) as [p0|] eqn:Hp; [|done].
  case_bool_decide as Hst; [|done]. rewrite (Hs _ _ Hp) in Hst. done.
Qed.

(** X10. [updateTier] never assigns [FOUNDER] and registration starts at
    [RECOGNIZED]: in every state the registry reaches no address is at tier
    Founder, and the voting power of every address is between 1 and 4. *)
Theorem founder_is_never_assigned tok ops a :
  let s := run ops (init tok) in
  getTier s a ≠ FOUNDER ∧ 1 ≤ getVotingPower s a ≤ 4.
Proof.
  intros s.
  assert (Ht : getTier s a ≠ FOUNDER).
  { unfold getTier. destruct (contributors s !! a) as [x|] eqn:Hx; [|done].
    assert (Hinv : tier_by_score s).
    { apply run_tier_by_score. intros c y. unfold init; simpl.
      by rewrite lookup_empty. }
    rewrite (Hinv _ _ Hx). unfold tier_of_score. by repeat case_match. }
  split; [done|]. unfold getVotingPower.
  destruct (getTier s a); simpl; try lia. done.
Qed.

Lemma step_votes_kept o now s k v :
  votes s !! k = Some v → votes (step o now s) !! k = Some v.
Proof.
  intros Hk. destruct o; simpl; try done.
  - unfold registerContributor. by case_match.
  - unfold submitCompositeScore. by case_match.
  - unfold applyModuleBonus. by case_match.
  - by destruct (distributeMonthlyRewards_governance timestamp now s)
      as (_ & -> & _).
  - unfold claimRewards. by repeat case_match.
  - unfold createProposal. by case_match.
  - unfold castVote, hasVoted.
    destruct (proposals s !! pid); [|done].
    destruct (negb (isContributor s voter_)); [done|].
    case_bool_decide as Hv; [done|]. simpl.
    rewrite lookup_insert_ne; [done|]. intros <-. apply Hv. by eexists.
  - unfold executeProposal. by repeat case_match.
Qed.

(** X14. A recorded vote is immutable: its type, its voting power (the
    tier multiplier at the time of the cast) and its time stay as written,
    whatever operations follow, later tier changes included. *)
Theorem recorded_vote_is_immutable ops s k v
    (Hk : votes s !! k = Some v) :
  votes (run ops s) !! k = Some v.
Proof.
  revert s Hk. induction ops as [|[o now] ops IH]; intros s Hk; simpl; [done|].
  by apply IH, step_votes_kept.
Qed.

End DaoFrames.

(** X14 for a vote cast at tier Recognized by a voter who then reaches
    Platinum: the recorded power stays 1. *)
Lemma recorded_vote_is_immutable_witness :
  let s :=
    Dao.run [(Dao.RegisterContributor "carol" "", 1);
             (Dao.CreateProposal "carol" "Budget" "Raise the pool", 2);
             (Dao.CastVote 1 "carol" FOR, 3)]
            (Dao.init (Token.init 0)) in
  Dao.votes (Dao.run [(Dao.ApplyModuleBonus "carol" 3 500, 4)] s) !! (1, "carol")
    = Some (Dao.mkVote 1 "carol" FOR 1 3).
Proof.
  intros s.
  refine (recorded_vote_is_immutable [(Dao.ApplyModuleBonus "carol" 3 500, 4)]
            s (1, "carol") _ _).
  vm_compute. reflexivity.
Defined.

Section DaoProposals.
Import Dao.

(** Operations other than [createProposal] add no proposal id and leave
    the counter alone. *)
Lemma step_proposal_ids o now s p :
  (∀ a t d, o ≠ CreateProposal a t d) →
  nextProposalId (step o now s) = nextProposalId s ∧
  (is_Some (proposals (step o now s) !! p) → is_Some (proposals s !! p)).
Proof.
  intros Hne. destruct o; simpl; try done.
  - unfold registerContributor. by case_match.
  - unfold submitCompositeScore. by case_match.
  - unfold applyModuleBonus. by case_match.
  - by destruct (distributeMonthlyRewards_governance timestamp now s)
      as (-> & _ & ->).
  - unfold claimRewards. by repeat case_match.
  - by destruct (Hne proposer_ title_ description_).
  - unfold castVote.
    destruct (proposals s !! pid) as [p0|] eqn:Hp; [|done].
    repeat case_match; simpl; try done.
    all: split; [done|]; rewrite lookup_insert;
      destruct (decide (pid = p)) as [<-|]; [|done];
      intros _; exact (mk_is_Some _ _ Hp).
  - unfold executeProposal.
    destruct (proposals s !! pid) as [p0|] eqn:Hp; [|done].
    case_match; simpl; [|done].
    split; [done|]. rewrite lookup_insert.
    destruct (decide (pid = p)) as [<-|]; [|done].
    intros _. exact (mk_is_Some _ _ Hp).
Qed.

Lemma step_ids_below o now s :
  ids_below s → nextProposalId s + 1 < two32 →
  ids_below (step o now s) ∧
  nextProposalId (step o now s) ≤ nextProposalId s + 1.
Proof.
  intros [H1 Hs] Hroom.
  assert (Hcase : (∃ a t d, o = CreateProposal a t d) ∨
                  ¬ (∃ a t d, o = CreateProposal a t d)).
  { destruct o; try (right; by intros (? & ? & ? & ?)).
    left. by eexists _, _, _. }
  destruct Hcase as [(a & t & d & ->)|Hne].
  - simpl. unfold createProposal. case_match; simpl; [split; [done|lia]|].
    assert (Hu : u32 (nextProposalId s + 1) = nextProposalId s + 1)
      by (unfold u32; apply Z.mod_small; lia).
    rewrite Hu. split; [split; [simpl; lia|]|lia].
    intros p. simpl. rewrite lookup_insert. case_decide; [lia|].
    intros Hp. specialize (Hs _ Hp). lia.
  - assert (Hne' : ∀ a t d, o ≠ CreateProposal a t d)
      by (intros a t d ->; apply Hne; by eexists _, _, _).
    split.
    + split.
      * by rewrite (proj1 (step_proposal_ids o now s 0 Hne')).
      * intros p Hp.
        destruct (step_proposal_ids o now s p Hne') as [-> Hback]. auto.
    + rewrite (proj1 (step_proposal_ids o now s 0 Hne')). lia.
Qed.

Lemma run_ids_below ops : ∀ s,
  ids_below s → nextProposalId s + Z.of_nat (length ops) < two32 →
  ids_below (run ops s) ∧
  nextProposalId (run ops s) ≤ nextProposalId s + Z.of_nat (length ops).
Proof.
  induction ops as [|[o now] ops IH]; intros s Hs Hroom; simpl in *.
  - split; [done|lia].
  - destruct (step_ids_below o now s Hs ltac:(lia)) as [Hs1 Hn1].
    destruct (IH _ Hs1 ltac:(lia)) as [Hs2 Hn2]. split; [done|lia].
Qed.

Lemma init_ids_below tok : ids_below (init tok).
Proof.
  split; [simpl; lia|]. intros p. unfold init; simpl.
  rewrite lookup_empty. by intros [? ?].
Qed.

(** X12. Proposal ids are issued in sequence from 1.  In a run of fewer
    than 2^32 - 2 operations a registered proposer always gets an id that
    is not 0 (the failure value) and not in use, and the proposals already
    recorded stay as they are. *)
Theorem proposal_ids_are_fresh tok ops proposer_ title_ description_ now
    (Hshort : Z.of_nat (length ops) < two32 - 2)
    (s := run ops (init tok))
    (Hreg : isContributor s proposer_ = true) :
  let r := createProposal proposer_ title_ description_ now s in
  r.1 = nextProposalId s ∧ r.1 ≠ 0 ∧
  proposals s !! r.1 = None ∧
  nextProposalId r.2 = r.1 + 1 ∧
  ∀ p pr, proposals s !! p = Some pr → proposals r.2 !! p = Some pr.
Proof.
  destruct (run_ids_below ops (init tok) (init_ids_below tok))
    as [[H1 Hs] Hn].
  { simpl. lia. }
  fold s in H1, Hs, Hn. simpl in Hn.
  unfold createProposal. rewrite Hreg. simpl.
  split; [done|]. split; [lia|]. split.
  - destruct (proposals s !! nextProposalId s) as [pr|] eqn:Hp; [|done].
    specialize (Hs _ (mk_is_Some _ _ Hp)). lia.
  - split; [unfold u32; apply Z.mod_small; lia|].
    intros p pr Hp. rewrite lookup_insert_ne; [done|].
    intros <-. specialize (Hs _ (mk_is_Some _ _ Hp)). lia.
Qed.

End DaoProposals.

(** X12 for the second proposal of a registry. *)
Lemma proposal_ids_are_fresh_witness :
  let s :=
    Dao.run [(Dao.RegisterContributor "dave" "", 1);
             (Dao.CreateProposal "dave" "First" "One", 2)]
            (Dao.init (Token.init 0)) in
  let r := Dao.createProposal "dave" "Second" "Two" 3 s in
  r.1 = 2 ∧ Dao.proposals s !! r.1 = None.
Proof.
  intros s r.
  destruct (proposal_ids_are_fresh (Token.init 0)
              [(Dao.RegisterContributor "dave" "", 1);
               (Dao.CreateProposal "dave" "First" "One", 2)]
              "dave" "Second" "Two" 3)
    as (H1 & _ & H3 & _).
  - vm_compute. reflexivity.
  - vm_compute. reflexivity.
  - exact (conj H1 H3).
Defined.

Section DaoContributors.
Import Dao.

Lemma contributors_extend_refl m : contributors_extend m m.
Proof. intros a c H. by exists c. Qed.

Lemma contributors_extend_trans m1 m2 m3 :
  contributors_extend m1 m2 → contributors_extend m2 m3 →
  contributors_extend m1 m3.
Proof.
  intros H12 H23 a c Ha.
  destruct (H12 a c Ha) as (c2 & Ha2 & Haddr2 & Hj2).
  destruct (H23 a c2 Ha2) as (c3 & Ha3 & Haddr3 & Hj3).
  exists c3. split; [done|]. split; congruence.
Qed.

(** Rewriting the entry of [a] with its address and join time kept. *)
Lemma contributors_extend_insert a c c1 m :
  m !! a = Some c → address c1 = address c → joinedAt c1 = joinedAt c →
  contributors_extend m (<[a := c1]> m).
Proof.
  intros Ha Haddr Hj b cb Hb. rewrite lookup_insert.
  case_decide; [subst b|by exists cb].
  exists c1. split; [done|]. split; congruence.
Qed.

Lemma updateTier_extend a m : contributors_extend m (updateTier a m).
Proof.
  unfold updateTier. destruct (m !! a) as [c|] eqn:Ha;
    [|apply contributors_extend_refl].
  by eapply contributors_extend_insert.
Qed.

Lemma payContributor_extend per ts now acc a :
  contributors_extend (contributors acc.1)
                      (contributors (payContributor per ts now acc a).1).
Proof.
  destruct acc as [s n]. unfold payContributor.
  destruct (Token.distributeReward a per now (tokenContract s)) as [[] tok];
    simpl; [|apply contributors_extend_refl].
  destruct (contributors s !! a) as [c|] eqn:Ha; simpl;
    [|apply contributors_extend_refl].
  by eapply contributors_extend_insert.
Qed.

Lemma payGroup_extend per ts now group : ∀ acc,
  contributors_extend (contributors acc.1)
    (contributors (foldl (payContributor per ts now) acc group).1).
Proof.
  induction group as [|a group IH]; intros acc; simpl;
    [apply contributors_extend_refl|].
  eapply contributors_extend_trans; [apply payContributor_extend|apply IH].
Qed.

Lemma payTiers_extend groups ts now tiers : ∀ acc,
  contributors_extend (contributors acc.1)
    (contributors (foldl (payTier groups ts now) acc tiers).1).
Proof.
  induction tiers as [|t tiers IH]; intros acc; simpl;
    [apply contributors_extend_refl|].
  eapply contributors_extend_trans; [|apply IH].
  unfold payTier. destruct (groups t); [apply contributors_extend_refl|].
  apply payGroup_extend.
Qed.

Lemma step_contributors_extend o now s :
  contributors_extend (contributors s) (contributors (step o now s)).
Proof.
  destruct o; simpl; try apply contributors_extend_refl.
  - unfold registerContributor.
    destruct (contributors s !! addr) eqn:Ha; [apply contributors_extend_refl|].
    simpl. intros b cb Hb. exists cb.
    rewrite lookup_insert_ne by congruence. done.
  - unfold submitCompositeScore.
    destruct (contributors s !! contributor) as [c|] eqn:Hc;
      [|apply contributors_extend_refl]. simpl.
    set (c1 := mkContributor _ _ _ _ _ _ _ _).
    set (m1 := updateTier contributor (<[contributor := c1]> (contributors s))).
    assert (H1 : contributors_extend (contributors s) m1).
    { eapply contributors_extend_trans; [|apply updateTier_extend].
      by eapply contributors_extend_insert. }
    destruct (m1 !! contributor) as [c2|] eqn:Hc2; [|done].
    eapply contributors_extend_trans; [exact H1|].
    by eapply contributors_extend_insert.
  - unfold applyModuleBonus.
    destruct (contributors s !! contributor) as [c|] eqn:Hc;
      [|apply contributors_extend_refl]. simpl.
    eapply contributors_extend_trans; [|apply updateTier_extend].
    by eapply contributors_extend_insert.
  - unfold distributeMonthlyRewards.
    pose proof (payTiers_extend (tierGroup (contributors s)) timestamp now
                  [FOUNDER; PLATINUM; GOLD; SILVER; RECOGNIZED] (s, 0)) as H.
    by destruct (foldl _ _ _) as [s1 n].
  - unfold claimRewards.
    destruct (contributors s !! contributor) as [c|] eqn:Hc;
      [|apply contributors_extend_refl].
    case_match; [|apply contributors_extend_refl]. simpl.
    by eapply contributors_extend_insert.
  - unfold createProposal. case_match; apply contributors_extend_refl.
  - unfold castVote. repeat case_match; apply contributors_extend_refl.
  - unfold executeProposal. repeat case_match; apply contributors_extend_refl.
Qed.

Lemma run_contributors_extend ops : ∀ s,
  contributors_extend (contributors s) (contributors (run ops s)).
Proof.
  induction ops as [|[o now] ops IH]; intros s; simpl;
    [apply contributors_extend_refl|].
  eapply contributors_extend_trans; [apply step_contributors_extend|apply IH].
Qed.

(** X19. Registration is once and for all: a registered contributor stays
    registered with the address and join time it was given, whatever
    operations follow, and registering the address again fails without
    changing the state. *)
Theorem contributor_stays_registered ops s a c referrer now
    (Ha : contributors s !! a = Some c) :
  let s' := run ops s in
  isContributor s' a = true ∧
  address (getContributor s' a) = address c ∧
  joinedAt (getContributor s' a) = joinedAt c ∧
  registerContributor a referrer now s' = (false, s').
Proof.
  intros s'.
  destruct (run_contributors_extend ops s a c Ha) as (c' & Ha' & Haddr & Hj).
  fold s' in Ha'. unfold isContributor, getContributor, registerContributor.
  rewrite Ha'. simpl. repeat split; try done.
Qed.

Lemma contributors_from_refl m : contributors_from m m.
Proof. intros a c H. left. by exists c. Qed.

Lemma contributors_from_trans m1 m2 m3 :
  contributors_from m1 m2 → contributors_from m2 m3 →
  contributors_from m1 m3.
Proof.
  intros H12 H23 a c3 Ha3.
  destruct (H23 a c3 Ha3) as [(c2 & Ha2 & Haddr)|?]; [|by right].
  destruct (H12 a c2 Ha2) as [(c1 & Ha1 & Haddr1)|?].
  - left. exists c1. split; [done|congruence].
  - right. congruence.
Qed.

Lemma contributors_from_insert a c c1 m :
  m !! a = Some c → address c1 = address c →
  contributors_from m (<[a := c1]> m).
Proof.
  intros Ha Haddr b cb. rewrite lookup_insert.
  case_decide; [subst b|by left; exists cb].
  intros [= <-]. left. by exists c.
Qed.

Lemma updateTier_from a m : contributors_from m (updateTier a m).
Proof.
  unfold updateTier. destruct (m !! a) as [c|] eqn:Ha;
    [|apply contributors_from_refl].
  by eapply contributors_from_insert.
Qed.

Lemma payContributor_from per ts now acc a :
  contributors_from (contributors acc.1)
                    (contributors (payContributor per ts now acc a).1).
Proof.
  destruct acc as [s n]. unfold payContributor.
  destruct (Token.distributeReward a per now (tokenContract s)) as [[] tok];
    simpl; [|apply contributors_from_refl].
  destruct (contributors s !! a) as [c|] eqn:Ha; simpl;
    [|apply contributors_from_refl].
  by eapply contributors_from_insert.
Qed.

Lemma payGroup_from per ts now group : ∀ acc,
  contributors_from (contributors acc.1)
    (contributors (foldl (payContributor per ts now) acc group).1).
Proof.
  induction group as [|a group IH]; intros acc; simpl;
    [apply contributors_from_refl|].
  eapply contributors_from_trans; [apply payContributor_from|apply IH].
Qed.

Lemma payTiers_from groups ts now tiers : ∀ acc,
  contributors_from (contributors acc.1)
    (contributors (foldl (payTier groups ts now) acc tiers).1).
Proof.
  induction tiers as [|t tiers IH]; intros acc; simpl;
    [apply contributors_from_refl|].
  eapply contributors_from_trans; [|apply IH].
  unfold payTier. destruct (groups t); [apply contributors_from_refl|].
  apply payGroup_from.
Qed.

Lemma step_contributors_from o now s :
  contributors_from (contributors s) (contributors (step o now s)).
Proof.
  destruct o; simpl; try apply contributors_from_refl.
  - unfold registerContributor.
    destruct (contributors s !! addr) eqn:Ha; [apply contributors_from_refl|].
    simpl. intros b cb. rewrite lookup_insert.
    case_decide; [subst b|by left; exists cb].
    intros [= <-]. by right.
  - unfold submitCompositeScore.
    destruct (contributors s !! contributor) as [c|] eqn:Hc;
      [|apply contributors_from_refl]. simpl.
    set (c1 := mkContributor _ _ _ _ _ _ _ _).
    set (m1 := updateTier contributor (<[contributor := c1]> (contributors s))).
    assert (H1 : contributors_from (contributors s) m1).
    { eapply contributors_from_trans; [|apply updateTier_from].
      by eapply contributors_from_insert. }
    destruct (m1 !! contributor) as [c2|] eqn:Hc2; [|done].
    eapply contributors_from_trans; [exact H1|].
    by eapply contributors_from_insert.
  - unfold applyModuleBonus.
    destruct (contributors s !! contributor) as [c|] eqn:Hc;
      [|apply contributors_from_refl]. simpl.
    eapply contributors_from_trans; [|apply updateTier_from].
    by eapply contributors_from_insert.
  - unfold distributeMonthlyRewards.
    pose proof (payTiers_from (tierGroup (contributors s)) timestamp now
                  [FOUNDER; PLATINUM; GOLD; SILVER; RECOGNIZED] (s, 0)) as H.
    by destruct (foldl _ _ _) as [s1 n].
  - unfold claimRewards.
    destruct (contributors s !! contributor) as [c|] eqn:Hc;
      [|apply contributors_from_refl].
    case_match; [|apply contributors_from_refl]. simpl.
    by eapply contributors_from_insert.
  - unfold createProposal. case_match; apply contributors_from_refl.
  - unfold castVote. repeat case_match; apply contributors_from_refl.
  - unfold executeProposal. repeat case_match; apply contributors_from_refl.
Qed.

Lemma run_keyed_by_address ops : ∀ s,
  keyed_by_address s → keyed_by_address (run ops s).
Proof.
  induction ops as [|[o now] ops IH]; intros s Hs; simpl; [done|].
  apply IH. intros k c' Hk.
  destruct (step_contributors_from o now s k c' Hk)
    as [(c & Hc & Haddr)|?]; [|done].
  rewrite Haddr. by apply Hs.
Qed.

(** X16. The registry's [verifyIntegrity] returns [true] in every state it
    reaches: no operation stores a contributor under another address than
    its own or rewrites the address of a contributor. *)
Theorem registry_integrity_holds tok ops :
  verifyIntegrity (run ops (init tok)) = true.
Proof.
  assert (Hs : keyed_by_address (run ops (init tok))).
  { apply run_keyed_by_address. intros k c. unfold init; simpl.
    by rewrite lookup_empty. }
  unfold verifyIntegrity. apply forallb_forall. intros [k c] Hin.
  apply bool_decide_eq_true. simpl. apply Hs.
  by apply elem_of_map_to_list, list_elem_of_In.
Qed.

End DaoContributors.

(** X19 for a contributor that is scored and rewarded after its
    registration. *)
Lemma contributor_stays_registered_witness :
  let s := Dao.run [(Dao.RegisterContributor "bob" "", 5)]
                   (Dao.init (Token.init 0)) in
  let s' := Dao.run [(Dao.ApplyModuleBonus "bob" 1 50, 6);
                     (Dao.DistributeMonthlyRewards 7, 7)] s in
  Dao.isContributor s' "bob" = true ∧
  Dao.joinedAt (Dao.getContributor s' "bob") = 5 ∧
  Dao.registerContributor "bob" "alice" 8 s' = (false, s').
Proof.
  intros s s'.
  destruct (contributor_stays_registered
              [(Dao.ApplyModuleBonus "bob" 1 50, 6);
               (Dao.DistributeMonthlyRewards 7, 7)] s "bob"
              (Dao.mkContributor "bob" RECOGNIZED 0 0 0 5 0 []) "alice" 8)
    as (H1 & _ & H3 & H4).
  - vm_compute. reflexivity.
  - exact (conj H1 (conj H3 H4)).
Defined.

Section DaoTierGroups.
Import Dao.

Lemma sorted_keys_elem_of {A} (m : gmap string A) a :
  a ∈ sorted_keys m ↔ is_Some (m !! a).
Proof.
  unfold sorted_keys. rewrite merge_sort_Permutation.
  rewrite list_elem_of_fmap. split.
  - intros ([k v] & -> & Hin). apply elem_of_map_to_list in Hin. by eexists.
  - intros [v Hv]. exists (a, v). split; [done|]. by apply elem_of_map_to_list.
Qed.

Lemma sorted_keys_NoDup {A} (m : gmap string A) : NoDup (sorted_keys m).
Proof.
  unfold sorted_keys. rewrite merge_sort_Permutation.
  apply NoDup_fst_map_to_list.
Qed.

(** X17. [getContributorsInTier] lists exactly the contributors whose tier
    is the one asked for, each once: the tier groups of the reward cycle
    partition the contributors. *)
Theorem getContributorsInTier_lists_the_tier s t :
  NoDup (getContributorsInTier s t) ∧
  (∀ a, a ∈ getContributorsInTier s t ↔
        ∃ c, contributors s !! a = Some c ∧ tier c = t) ∧
  (∀ a c, contributors s !! a = Some c →
          ∀ t', a ∈ getContributorsInTier s t' ↔ t' = tier c).
Proof.
  unfold getContributorsInTier, tierGroup.
  assert (Hmem : ∀ t0 a,
    a ∈ filter (λ a, tier <$> contributors s !! a = Some t0)
               (sorted_keys (contributors s)) ↔
    ∃ c, contributors s !! a = Some c ∧ tier c = t0).
  { intros t0 a. rewrite list_elem_of_filter, sorted_keys_elem_of. split.
    - intros [Ht [c Hc]]. exists c. split; [done|].
      rewrite Hc in Ht. simpl in Ht. congruence.
    - intros (c & Hc & Ht). rewrite Hc. simpl. split; [congruence|by eexists]. }
  split; [apply NoDup_filter, sorted_keys_NoDup|]. split; [apply Hmem|].
  intros a c Hc t'. rewrite Hmem. split.
  - intros (c' & Hc' & <-). congruence.
  - intros ->. by exists c.
Qed.

End DaoTierGroups.

Section CompositeScore.

Lemma calculateCompositeScore_between_aux lo hi cq doc test innov comm :
  0 ≤ lo → hi ≤ 255 →
  lo ≤ cq ≤ hi → lo ≤ doc ≤ hi → lo ≤ test ≤ hi →
  lo ≤ innov ≤ hi → lo ≤ comm ≤ hi →
  lo ≤ calculateCompositeScore cq doc test innov comm ≤ hi.
Proof.
  intros Hlo Hhi Hcq Hdoc Htest Hinnov Hcomm.
  unfold calculateCompositeScore, u32, two32.
  set (n := cq * 25 + doc * 20 + test * 20 + innov * 20 + comm * 15).
  assert (Hn : lo * 100 ≤ n ≤ hi * 100) by (unfold n; lia).
  assert (Hq : lo ≤ n / 100 ≤ hi).
  { split; [apply Z.div_le_lower_bound; lia|].
    apply Z.div_le_upper_bound; lia. }
  rewrite Z.mod_small; lia.
Qed.

(** X18. The weights of the composite score add up to 100: for category
    scores between [lo] and [hi] (bytes), the composite score lies between
    [lo] and [hi]; in particular five equal scores give that score, and
    scores of at most 100 give at most 100. *)
Theorem calculateCompositeScore_between lo hi cq doc test innov comm
    (Hlo : 0 ≤ lo) (Hhi : hi ≤ 255)
    (Hcq : lo ≤ cq ≤ hi) (Hdoc : lo ≤ doc ≤ hi) (Htest : lo ≤ test ≤ hi)
    (Hinnov : lo ≤ innov ≤ hi) (Hcomm : lo ≤ comm ≤ hi) :
  lo ≤ calculateCompositeScore cq doc test innov comm ≤ hi.
Proof. by apply calculateCompositeScore_between_aux. Qed.

End CompositeScore.

(** X18 at the scores of the integration test. *)
Lemma calculateCompositeScore_between_witness :
  75 ≤ calculateCompositeScore 85 90 80 95 75 ≤ 95.
Proof.
  apply (calculateCompositeScore_between 75 95); lia.
Defined.

Section SystemConservation.

Lemma payContributor_conserved per ts now acc a :
  conserved (Dao.tokenContract acc.1) →
  conserved (Dao.tokenContract (Dao.payContributor per ts now acc a).1).
Proof.
  destruct acc as [s n]. simpl. intros Hs. unfold Dao.payContributor.
  pose proof (distributeReward_conserved a per now (Dao.tokenContract s) Hs)
    as Hc.
  destruct (Token.distributeReward a per now (Dao.tokenContract s))
    as [[] tok]; simpl in *; [|done].
  by destruct (Dao.contributors s !! a).
Qed.

Lemma payGroup_conserved per ts now group : ∀ acc,
  conserved (Dao.tokenContract acc.1) →
  conserved (Dao.tokenContract
               (foldl (Dao.payContributor per ts now) acc group).1).
Proof.
  induction group as [|a group IH]; intros acc Hs; simpl; [done|].
  by apply IH, payContributor_conserved.
Qed.

Lemma payTiers_conserved groups ts now tiers : ∀ acc,
  conserved (Dao.tokenContract acc.1) →
  conserved (Dao.tokenContract
               (foldl (Dao.payTier groups ts now) acc tiers).1).
Proof.
  induction tiers as [|t tiers IH]; intros acc Hs; simpl; [done|].
  apply IH. unfold Dao.payTier. destruct (groups t); [done|].
  by apply payGroup_conserved.
Qed.

Lemma dao_step_conserved o now s :
  conserved (Dao.tokenContract s) →
  conserved (Dao.tokenContract (Dao.step o now s)).
Proof.
  intros Hs. destruct o; simpl; try done.
  - unfold Dao.registerContributor. by case_match.
  - unfold Dao.submitCompositeScore. by case_match.
  - unfold Dao.applyModuleBonus. by case_match.
  - unfold Dao.distributeMonthlyRewards.
    pose proof (payTiers_conserved (Dao.tierGroup (Dao.contributors s))
                  timestamp now [FOUNDER; PLATINUM; GOLD; SILVER; RECOGNIZED]
                  (s, 0) Hs) as H.
    by destruct (foldl _ _ _) as [s1 n].
  - unfold Dao.claimRewards. by repeat case_match.
  - unfold Dao.createProposal. by case_match.
  - unfold Dao.castVote. by repeat case_match.
  - unfold Dao.executeProposal. by repeat case_match.
  - by apply step_conserved.
Qed.

Lemma oracle_step_conserved o now s :
  conserved (Dao.tokenContract (Oracle.daoContract s)) →
  conserved (Dao.tokenContract (Oracle.daoContract (Oracle.step o now s))).
Proof.
  intros Hs. destruct o; simpl; try done.
  - unfold Oracle.submitScore. by case_match.
  - unfold Oracle.verifySubmission. by repeat case_match.
  - unfold Oracle.registerVerifier. by case_match.
  - unfold Oracle.removeVerifier. by case_match.
  - unfold Oracle.challengeVerification. by case_match.
  - unfold Oracle.resolveChallenge. by case_match.
  - unfold Oracle.registerWithDao.
    destruct (Oracle.submissions s !! submissionId) as [sub|]; [|done].
    case_match; [done|].
    pose proof (dao_step_conserved
                  (Dao.SubmitCompositeScore (Oracle.targetContributor sub)
                     (Oracle.scores sub)) now (Oracle.daoContract s) Hs) as Hd.
    simpl in Hd. by destruct (Dao.submitCompositeScore _ _ _ _).
  - by apply dao_step_conserved.
Qed.

(** X20. Conservation holds for the three contracts together: after any
    sequence of oracle, registry and ledger operations on the contracts as
    the tests build them, reward cycles included, the ledger's
    [verifyIntegrity] returns [true]. *)
Theorem ledger_integrity_of_the_system now0 ops :
  Token.verifyIntegrity
    (Dao.tokenContract (Oracle.daoContract (Oracle.run ops (Oracle.fresh now0))))
  = true.
Proof.
  apply conserved_verifyIntegrity.
  assert (H : ∀ s, conserved (Dao.tokenContract (Oracle.daoContract s)) →
              conserved (Dao.tokenContract
                           (Oracle.daoContract (Oracle.run ops s)))).
  { induction ops as [|[o now] ops IH]; intros s Hs; simpl; [done|].
    by apply IH, oracle_step_conserved. }
  apply H. apply init_conserved.
Qed.

End SystemConservation.

(** X9: the threshold tier of the composite score, after a bonus of 250
    points and a submission scored 60. *)
Lemma getTier_follows_compositeScore_witness :
  let ops :=
    [(Dao.RegisterContributor "bob" "", 1);
     (Dao.ApplyModuleBonus "bob" 2 250, 2);
     (Dao.SubmitCompositeScore "bob"
        [mkCategoryScore CODE_QUALITY 60 "" 0;
         mkCategoryScore DOCUMENTATION 60 "" 0;
         mkCategoryScore TESTING 60 "" 0;
         mkCategoryScore INNOVATION 60 "" 0;
         mkCategoryScore COMMUNITY_IMPACT 60 "" 0], 3)] in
  Dao.getTier (Dao.run ops (Dao.init (Token.init 0))) "bob"
    = Dao.tier_of_score 60.
Proof.
  intros ops.
  lazymatch eval vm_compute in
      (Dao.contributors (Dao.run ops (Dao.init (Token.init 0))) !! "bob") with
  | Some ?v => pose (x := v)
  end.
  refine (getTier_follows_compositeScore ops (Token.init 0) "bob" x _).
  vm_compute. reflexivity.
Defined.

(** X11: an account that is no contributor keeps its balance through a
    reward cycle. *)
Lemma distributeMonthlyRewards_pays_grouping_witness :
  let s :=
    Dao.run [(Dao.RegisterContributor "bob" "", 1);
             (Dao.TokenOp (Token.Transfer "mallory" 500), 2)]
            (Dao.init (Token.init 0)) in
  Token.balanceOf
    (Dao.tokenContract (Dao.distributeMonthlyRewards 3 3 s).2) "mallory"
    = Token.balanceOf (Dao.tokenContract s) "mallory".
Proof.
  intros s.
  refine (distributeMonthlyRewards_pays_grouping 3 3 s "mallory" _ _).
  - discriminate.
  - intros t. destruct t; vm_compute; intros H; inversion H;
      repeat match goal with
      | H : _ ∈ _ |- _ => inversion H; clear H; subst
      end.
Defined.

Section DaoTallies.
Import Dao.

Lemma tally_insert_fresh vs k v p t :
  vs !! k = None →
  tally (<[k := v]> vs) p t
    = tally vs p t
      + (if decide (k.1 = p ∧ voteType v = t) then votingPower v else 0).
Proof.
  intros Hk. unfold tally. rewrite map_fold_insert_L; [| |done].
  - case_decide; lia.
  - intros. repeat case_decide; lia.
Qed.

Lemma tally_no_votes vs p t :
  (∀ k, is_Some (vs !! k) → k.1 ≠ p) → tally vs p t = 0.
Proof.
  induction vs as [|k v vs Hk IH] using map_ind; intros Hno; [done|].
  rewrite tally_insert_fresh by done.
  rewrite IH.
  - rewrite decide_False; [done|]. intros [Hp _].
    apply (Hno k); [|done]. rewrite lookup_insert_eq. by eexists.
  - intros k' Hk'. apply Hno. rewrite lookup_insert.
    case_decide; [by eexists|done].
Qed.

Lemma init_tallied tok : tallied (init tok).
Proof.
  split.
  - intros p pr. unfold init; simpl. by rewrite lookup_empty.
  - intros k. unfold init; simpl. rewrite lookup_empty. by intros [? ?].
Qed.

Lemma u64_add_l a b : u64 (u64 a + b) = u64 (a + b).
Proof. unfold u64. by rewrite Zplus_mod_idemp_l. Qed.

Lemma castVote_tallied pid v vt now s :
  tallied s → tallied (castVote pid v vt now s).2.
Proof.
  intros [Ht Hk]. unfold castVote, hasVoted.
  destruct (proposals s !! pid) as [p0|] eqn:Hp; [|done].
  destruct (negb (isContributor s v)); [done|].
  case_bool_decide as Hv; [done|]. simpl.
  assert (Hnone : votes s !! (pid, v) = None)
    by (by apply eq_None_not_Some).
  destruct (Ht _ _ Hp) as (Hf & Ha & Hb).
  split.
  - intros p pr. simpl. rewrite lookup_insert.
    destruct (decide (pid = p)) as [<-|Hne].
    + intros [= <-]. rewrite !tally_insert_fresh by done. simpl.
      destruct vt; simpl;
        repeat match goal with
        | |- context [decide ?P] =>
            destruct (decide P) as [[_ ?]|?];
            [try discriminate|try (exfalso; intuition congruence)]
        end;
        rewrite ?Z.add_0_r, ?Hf, ?Ha, ?Hb, ?u64_add_l; done.
    + intros Hpr. rewrite !tally_insert_fresh by done. simpl.
      repeat (rewrite decide_False by (intros [? _]; done)).
      rewrite !Z.add_0_r. by apply Ht.
  - intros k. simpl. rewrite !lookup_insert.
    destruct (decide ((pid, v) = k)) as [<-|Hne]; simpl.
    + intros _. rewrite decide_True by done. by eexists.
    + intros Hk'. specialize (Hk _ Hk').
      case_decide; [by eexists|done].
Qed.

Lemma createProposal_tallied a t d now s :
  tallied s → proposals s !! nextProposalId s = None →
  tallied (createProposal a t d now s).2.
Proof.
  intros [Ht Hk] Hfresh. unfold createProposal. case_match; [done|]. simpl.
  split.
  - intros p pr. simpl. rewrite lookup_insert.
    destruct (decide (nextProposalId s = p)) as [<-|Hne]; [|apply Ht].
    intros [= <-]. simpl.
    rewrite !tally_no_votes; [done|..];
      intros k Hk' Heq; specialize (Hk _ Hk'); rewrite Heq, Hfresh in Hk;
      by destruct Hk.
  - intros k Hk'. simpl. rewrite lookup_insert.
    case_decide; [by eexists|by apply Hk].
Qed.

Lemma executeProposal_tallied pid now s :
  tallied s → tallied (executeProposal pid now s).2.
Proof.
  intros [Ht Hk]. unfold executeProposal.
  destruct (proposals s !! pid) as [p0|] eqn:Hp; [|done].
  case_match; [|done]. simpl. split.
  - intros p pr. simpl. rewrite lookup_insert.
    destruct (decide (pid = p)) as [<-|Hne]; [|apply Ht].
    intros [= <-]. simpl. by apply Ht.
  - intros k Hk'. simpl. rewrite lookup_insert.
    destruct (decide (pid = k.1)); [by eexists|by apply Hk].
Qed.

Lemma step_tallied o now s :
  tallied s → proposals s !! nextProposalId s = None →
  tallied (step o now s).
Proof.
  intros Hs Hfresh. destruct o; simpl; try done.
  - unfold registerContributor. by case_match.
  - unfold submitCompositeScore. by case_match.
  - unfold applyModuleBonus. by case_match.
  - destruct (distributeMonthlyRewards_governance timestamp now s)
      as (Hp & Hv & _).
    destruct Hs as [Ht Hk]. split.
    + intros p pr. rewrite Hp, Hv. apply Ht.
    + intros k. rewrite Hp, Hv. apply Hk.
  - unfold claimRewards. by repeat case_match.
  - by apply createProposal_tallied.
  - by apply castVote_tallied.
  - by apply executeProposal_tallied.
Qed.

Lemma run_tallied ops : ∀ s,
  tallied s → ids_below s →
  nextProposalId s + Z.of_nat (length ops) < two32 →
  tallied (run ops s).
Proof.
  induction ops as [|[o now] ops IH]; intros s Hs Hids Hroom; simpl in *;
    [done|].
  destruct (step_ids_below o now s Hids ltac:(lia)) as [Hids1 Hn1].
  apply IH; [|done|lia].
  apply step_tallied; [done|].
  destruct (proposals s !! nextProposalId s) eqn:Hp; [|done].
  destruct Hids as [_ Hbelow]. specialize (Hbelow _ (mk_is_Some _ _ Hp)). lia.
Qed.

(** X15. The tallies agree with the recorded votes: in a run of fewer than
    2^32 - 2 operations, the [votesFor], [votesAgainst] and [votesAbstain]
    of every proposal are the 64-bit sums of the voting power of the votes
    recorded for it with that type. *)
Theorem tallies_are_the_recorded_votes tok ops p pr
    (Hshort : Z.of_nat (length ops) < two32 - 2)
    (s := run ops (init tok))
    (Hp : proposals s !! p = Some pr) :
  votesFor pr = u64 (tally (votes s) p FOR) ∧
  votesAgainst pr = u64 (tally (votes s) p AGAINST) ∧
  votesAbstain pr = u64 (tally (votes s) p ABSTAIN).
Proof.
  assert (Hs : tallied s).
  { apply run_tallied; [apply init_tallied|apply init_ids_below|simpl; lia]. }
  by apply Hs.
Qed.

End DaoTallies.

(** X15 for a proposal with a vote for (power 2) and a vote against
    (power 1). *)
Lemma tallies_are_the_recorded_votes_witness :
  let ops :=
    [(Dao.RegisterContributor "carol" "", 1);
     (Dao.RegisterContributor "dave" "", 1);
     (Dao.ApplyModuleBonus "carol" 3 100, 2);
     (Dao.CreateProposal "dave" "Budget" "Raise the pool", 3);
     (Dao.CastVote 1 "carol" FOR, 4);
     (Dao.CastVote 1 "dave" AGAINST, 5)] in
  let s := Dao.run ops (Dao.init (Token.init 0)) in
  2 = u64 (tally (Dao.votes s) 1 FOR) ∧
  1 = u64 (tally (Dao.votes s) 1 AGAINST) ∧
  0 = u64 (tally (Dao.votes s) 1 ABSTAIN).
Proof.
  intros ops s.
  lazymatch eval vm_compute in (Dao.proposals s !! 1) with
  | Some ?v => pose (pr := v)
  end.
  assert (Hshort : Z.of_nat (length ops) < two32 - 2)
    by (vm_compute; reflexivity).
  assert (Hp : Dao.proposals s !! 1 = Some pr) by (vm_compute; reflexivity).
  exact (tallies_are_the_recorded_votes (Token.init 0) ops 1 pr Hshort Hp).
Defined.

(** * Further properties of the oracle *)

Section OracleSubmissions.
Import Oracle.

Lemma isValidScore_range x : isValidScore x = true ↔ 0 ≤ x ≤ 100.
Proof.
  unfold isValidScore, MAX_CATEGORY_SCORE.
  rewrite andb_true_iff, Z.leb_le, Z.leb_le. done.
Qed.

Lemma submission_id_not_empty c now : submission_id c now ≠ "".
Proof. unfold submission_id. simpl. discriminate. Qed.

(** X21. [submitScore] rejects a submission exactly when one of the five
    scores is outside 0..100: it then returns the empty string and changes
    nothing.  Otherwise it returns the non-empty id
    ["sub_" + contributor + "_" + time] and stores, under that id, an
    unverified submission with count 0 and the five scores, leaving the
    verifiers, the chains and the registry as they were. *)
Theorem submitScore_validates c cq doc test innov comm repo h now s :
  let r := submitScore c cq doc test innov comm repo h now s in
  let valid := 0 ≤ cq ≤ 100 ∧ 0 ≤ doc ≤ 100 ∧ 0 ≤ test ≤ 100 ∧
               0 ≤ innov ≤ 100 ∧ 0 ≤ comm ≤ 100 in
  (¬ valid → r = ("", s)) ∧
  (valid →
   r.1 = submission_id c now ∧ r.1 ≠ "" ∧
   (∃ sub, submissions r.2 !! r.1 = Some sub ∧
           verificationLevel sub = UNVERIFIED ∧ verifierCount sub = 0 ∧
           targetContributor sub = c ∧
           scores sub = five_scores cq doc test innov comm now) ∧
   verifiers r.2 = verifiers s ∧
   verificationChains r.2 = verificationChains s ∧
   daoContract r.2 = daoContract s).
Proof.
  intros r valid. subst r valid. unfold submitScore, validateScores.
  rewrite <- !isValidScore_range.
  destruct (isValidScore cq), (isValidScore doc), (isValidScore test),
    (isValidScore innov), (isValidScore comm); simpl;
    (split; [try done; intros H; exfalso; apply H; done|]);
    try (by intros (? & ? & ? & ? & ?)).
  intros _. split; [done|]. split; [apply submission_id_not_empty|].
  split; [|done]. eexists. split; [apply lookup_insert_eq|]. done.
Qed.

Lemma step_well_scored o now s : well_scored s → well_scored (step o now s).
Proof.
  intros Hs. destruct o; simpl; try done.
  - unfold submitScore, validateScores.
    destruct (isValidScore cq) eqn:H1, (isValidScore doc) eqn:H2,
      (isValidScore test) eqn:H3, (isValidScore innov) eqn:H4,
      (isValidScore comm) eqn:H5; simpl; try done.
    intros id sub. simpl. rewrite lookup_insert.
    case_decide; [|apply Hs]. intros [= <-]. simpl.
    by exists cq, doc, test, innov, comm, now.
  - unfold verifySubmission.
    destruct (submissions s !! submissionId) as [sub0|] eqn:Hsub; [|done].
    case_match; [done|]. simpl.
    intros id sub. simpl. rewrite lookup_insert.
    case_decide; [|apply Hs]. intros [= <-]. simpl. by apply (Hs _ _ Hsub).
  - unfold registerVerifier. by case_match.
  - unfold removeVerifier. by case_match.
  - unfold challengeVerification. by case_match.
  - unfold resolveChallenge. by case_match.
  - intros id sub.
    destruct (registerWithDao_submissions submissionId now s) as [-> _].
    apply Hs.
Qed.

Lemma run_well_scored ops s : well_scored s → well_scored (run ops s).
Proof.
  revert s. induction ops as [|[o now] ops IH]; intros s Hs; simpl; [done|].
  by apply IH, step_well_scored.
Qed.

Lemma init_well_scored dao : well_scored (init dao).
Proof. intros id sub. unfold init; simpl. by rewrite lookup_empty. Qed.

Lemma u8_valid x : isValidScore x = true → u8 x = x.
Proof.
  intros H%isValidScore_range. unfold u8, two8. apply Z.mod_small. lia.
Qed.

Lemma composite_of_five cq doc test innov comm now :
  isValidScore cq = true → isValidScore doc = true →
  isValidScore test = true → isValidScore innov = true →
  isValidScore comm = true →
  Dao.composite_of (five_scores cq doc test innov comm now)
    = calculateCompositeScore cq doc test innov comm.
Proof.
  intros H1 H2 H3 H4 H5. unfold Dao.composite_of, Dao.category_values.
  simpl. by rewrite !u8_valid.
Qed.

Lemma submitCompositeScore_scored c scores now d x :
  Dao.contributors d !! c = Some x →
  ∃ x', Dao.contributors (Dao.submitCompositeScore c scores now d).2 !! c
          = Some x' ∧
        Dao.compositeScore x' = Dao.composite_of scores ∧
        Dao.pointsEarned x'
          = u64 (Dao.pointsEarned x + Dao.composite_of scores) ∧
        Dao.tier x' = Dao.tier_of_score (Dao.composite_of scores).
Proof.
  intros Hc. unfold Dao.submitCompositeScore. rewrite Hc. simpl.
  unfold Dao.updateTier. rewrite !lookup_insert_eq.
  eexists. split; [reflexivity|]. done.
Qed.

(** X28. What the oracle forwards is bounded: for every submission of a
    reachable state, a successful [registerWithDao] sets the contributor's
    composite score to the weighted score of the five submitted scores,
    which is at most 100, so the contributor is then at tier Recognized or
    Silver, and adds that score to [pointsEarned]. *)
Theorem forwarded_score_is_bounded dao ops id sub x now
    (s := run ops (init dao))
    (Hsub : submissions s !! id = Some sub)
    (Hx : Dao.contributors (daoContract s) !! targetContributor sub = Some x)
    (Hok : (registerWithDao id now s).1 = true) :
  let d' := daoContract (registerWithDao id now s).2 in
  let x' := Dao.getContributor d' (targetContributor sub) in
  Dao.compositeScore x' = Dao.composite_of (scores sub) ∧
  0 ≤ Dao.compositeScore x' ≤ 100 ∧
  Dao.pointsEarned x' = u64 (Dao.pointsEarned x + Dao.compositeScore x') ∧
  (Dao.tier x' = RECOGNIZED ∨ Dao.tier x' = SILVER).
Proof.
  destruct (run_well_scored ops _ (init_well_scored dao) id sub Hsub)
    as (cq & doc & test & innov & comm & t & H1 & H2 & H3 & H4 & H5 & Hsc & _).
  pose proof (composite_of_five cq doc test innov comm t H1 H2 H3 H4 H5) as Hc.
  rewrite <- Hsc in Hc.
  assert (Hb : 0 ≤ Dao.composite_of (scores sub) ≤ 100).
  { rewrite Hc. apply isValidScore_range in H1, H2, H3, H4, H5.
    apply (calculateCompositeScore_between_aux 0 100); lia. }
  cbv zeta. unfold registerWithDao in *. rewrite Hsub in *.
  destruct (below_advanced (verificationLevel sub)); [done|].
  destruct (submitCompositeScore_scored (targetContributor sub) (scores sub)
              now (daoContract s) x Hx) as (x' & Hx' & Hcs & Hpts & Htier).
  destruct (Dao.submitCompositeScore _ _ _ _) as [ok d]. simpl in *.
  unfold Dao.getContributor. rewrite Hx'. simpl.
  rewrite Hcs, Hpts, Htier. split; [done|]. split; [done|]. split; [done|].
  unfold Dao.tier_of_score, Dao.getTierThreshold.
  repeat case_match; try (by left); try (by right);
    repeat match goal with
    | H : (_ <=? _) = true |- _ => apply Z.leb_le in H
    end; lia.
Qed.

End OracleSubmissions.

Section OracleDigests.
Import Oracle.

Lemma verifyMerkleProof_same r : 
  forallb (λ i, nth i r 0 =? nth i r 0) (seq 0 32) = true.
Proof. apply forallb_forall. intros i _. apply Z.eqb_refl. Qed.

Lemma computeMerkleTree_ext a b :
  scores a = scores b → gitSHA1 a = gitSHA1 b →
  computeMerkleTree a = computeMerkleTree b.
Proof. unfold computeMerkleTree. by intros -> ->. Qed.

Lemma xor_at_0 i r : xor_at i 0 r = r.
Proof.
  unfold xor_at. rewrite Z.lxor_0_r, nth_lookup.
  destruct (r !! i) as [x|] eqn:Hi; simpl.
  - by apply list_insert_id.
  - apply list_insert_ge. by apply lookup_ge_None.
Qed.

Lemma step_roots_current o now s : roots_current s → roots_current (step o now s).
Proof.
  intros Hs. destruct o; simpl; try done.
  - unfold submitScore. case_match; [done|]. simpl.
    intros id sub. simpl. rewrite !lookup_insert.
    case_decide; [|apply Hs]. by intros [= <-].
  - unfold verifySubmission.
    destruct (submissions s !! submissionId) as [sub0|] eqn:Hsub; [|done].
    case_match; [done|]. simpl.
    intros id sub. simpl. rewrite lookup_insert.
    case_decide as Hid; [|apply Hs]. intros [= <-]. subst id.
    rewrite (Hs _ _ Hsub).
    apply (f_equal Some), computeMerkleTree_ext; reflexivity.
  - unfold registerVerifier. by case_match.
  - unfold removeVerifier. by case_match.
  - unfold challengeVerification. by case_match.
  - unfold resolveChallenge. by case_match.
  - unfold registerWithDao. repeat case_match; done.
Qed.

Lemma run_roots_current ops s : roots_current s → roots_current (run ops s).
Proof.
  revert s. induction ops as [|[o now] ops IH]; intros s Hs; simpl; [done|].
  by apply IH, step_roots_current.
Qed.

(** X22. The stored digest stays the digest of the submission: in every
    reachable state and for every stored submission, [getMerkleRoot] is what
    [createMerkleProof] recomputes, so [verifyMerkleProof] accepts the
    recomputed proof; verifications, which rewrite the submission, do not
    change it.  For an unknown id [verifyMerkleProof] rejects every root. *)
Theorem merkle_proof_round_trip dao ops id (s := run ops (init dao)) :
  (is_Some (submissions s !! id) →
   getMerkleRoot s id = createMerkleProof s id ∧
   verifyMerkleProof s id (createMerkleProof s id) = true) ∧
  (merkleRoots s !! id = None → ∀ r, verifyMerkleProof s id r = false).
Proof.
  split.
  - intros [sub Hsub].
    assert (Hr : roots_current s).
    { apply run_roots_current. intros i x. unfold init; simpl.
      by rewrite lookup_empty. }
    specialize (Hr _ _ Hsub).
    unfold getMerkleRoot, createMerkleProof, verifyMerkleProof.
    rewrite Hr, Hsub. split; [reflexivity|]. apply verifyMerkleProof_same.
  - intros Hn r. unfold verifyMerkleProof. by rewrite Hn.
Qed.

(** X23. The digest binds the five scores only: for scores in 0..100 the root
    stored by [submitScore] is the five scores followed by 27 zero bytes,
    whatever the contributor, the repository, the evidence hash and the
    time are. *)
Theorem merkle_root_is_the_scores c cq doc test innov comm repo h now s
    (Hcq : 0 ≤ cq ≤ 100) (Hdoc : 0 ≤ doc ≤ 100) (Htest : 0 ≤ test ≤ 100)
    (Hinnov : 0 ≤ innov ≤ 100) (Hcomm : 0 ≤ comm ≤ 100) :
  let r := submitScore c cq doc test innov comm repo h now s in
  getMerkleRoot r.2 r.1 = [cq; doc; test; innov; comm] ++ replicate 27 0.
Proof.
  apply isValidScore_range in Hcq as Vcq, Hdoc as Vdoc, Htest as Vtest,
    Hinnov as Vinnov, Hcomm as Vcomm.
  cbv zeta. unfold submitScore, validateScores.
  rewrite Vcq, Vdoc, Vtest, Vinnov, Vcomm. simpl.
  unfold getMerkleRoot. simpl. rewrite lookup_insert_eq. simpl.
  unfold computeMerkleTree. simpl. rewrite !xor_at_0.
  rewrite !u8_valid by done. reflexivity.
Qed.

End OracleDigests.

Section OracleVerifiers.
Import Oracle.

(** X24. After [removeVerifier a], whether it found [a] or not, [a] is no
    verifier and every [verifySubmission] by [a] fails without changing the
    state; the other verifiers, the submissions with their levels and the
    verification chains are as before: what [a] approved stays approved. *)
Theorem removed_verifier_cannot_verify a s :
  let s' := (removeVerifier a s).2 in
  isVerifier s' a = false ∧
  (∀ id appr notes now, verifySubmission id a appr notes now s' = (false, s')) ∧
  (∀ b, b ≠ a → isVerifier s' b = isVerifier s b) ∧
  submissions s' = submissions s ∧
  verificationChains s' = verificationChains s.
Proof.
  cbv zeta.
  assert (Hno : isVerifier (removeVerifier a s).2 a = false).
  { unfold removeVerifier, isVerifier.
    destruct (decide (a ∈ verifiers s)) as [Hin|Hin].
    - rewrite (bool_decide_eq_true_2 _ Hin). simpl.
      apply bool_decide_eq_false_2.
      rewrite elem_of_difference, elem_of_singleton. by intros [_ ?].
    - rewrite (bool_decide_eq_false_2 _ Hin). simpl.
      by apply bool_decide_eq_false_2. }
  split; [done|]. split.
  - intros id appr notes now. unfold verifySubmission.
    rewrite Hno. simpl. by case_match.
  - unfold removeVerifier, isVerifier.
    destruct (decide (a ∈ verifiers s)) as [Hin|Hin].
    + rewrite (bool_decide_eq_true_2 _ Hin). simpl.
      split; [|done]. intros b Hb. apply bool_decide_ext.
      rewrite elem_of_difference, elem_of_singleton. tauto.
    + rewrite (bool_decide_eq_false_2 _ Hin). done.
Qed.

End OracleVerifiers.

Section OracleChains.
Import Oracle.

Lemma chains_extend_refl m : chains_extend m m.
Proof. by intros id. Qed.

Lemma step_chains_extend o now s :
  chains_extend (verificationChains s) (verificationChains (step o now s)).
Proof.
  destruct o; simpl; try apply chains_extend_refl.
  - unfold submitScore. case_match; apply chains_extend_refl.
  - unfold verifySubmission.
    destruct (submissions s !! submissionId); [|apply chains_extend_refl].
    case_match; [apply chains_extend_refl|]. simpl.
    intros id. rewrite lookup_insert. case_decide as Hid; [|done].
    subst id. simpl. by apply prefix_app_r.
  - unfold registerVerifier. case_match; apply chains_extend_refl.
  - unfold removeVerifier. case_match; apply chains_extend_refl.
  - unfold challengeVerification. case_match; apply chains_extend_refl.
  - unfold resolveChallenge. case_match; apply chains_extend_refl.
  - unfold registerWithDao. repeat case_match; apply chains_extend_refl.
Qed.

(** X25. Verification chains are append-only: whatever operations follow, the
    chain [getVerificationChain] returns for an id begins with the chain it
    returned before; no record is removed, reordered or rewritten, not by a
    challenge, its resolution, or the removal of the verifier. *)
Theorem verification_chain_append_only ops s id :
  getVerificationChain s id `prefix_of` getVerificationChain (run ops s) id.
Proof.
  revert s. induction ops as [|[o now] ops IH]; intros s; simpl; [done|].
  etrans; [|apply IH]. apply step_chains_extend.
Qed.

End OracleChains.

Section OracleChallenges.
Import Oracle.

Lemma getPendingChallenges_elem_of s c :
  c ∈ getPendingChallenges s ↔ challenges s !! c = Some false.
Proof.
  unfold getPendingChallenges. rewrite list_elem_of_filter.
  rewrite sorted_keys_elem_of. split; [by intros [? _]|].
  intros H. split; [done|]. by rewrite H.
Qed.

(** X26. [resolveChallenge] ignores its [accepted] argument and the state of
    the challenge: for a known challenge it returns [true] whether the
    challenge is upheld or not and whether it was resolved before, marks it
    resolved, so it is no longer among [getPendingChallenges], and leaves
    the challenged submission, its level and its chain untouched; for an
    unknown challenge it returns [false] and changes nothing. *)
Theorem resolveChallenge_ignores_outcome c accepted s :
  let r := resolveChallenge c accepted s in
  r = resolveChallenge c (negb accepted) s ∧
  r.1 = bool_decide (is_Some (challenges s !! c)) ∧
  (r.1 = false → r.2 = s) ∧
  (r.1 = true →
   (c ∉ getPendingChallenges r.2) ∧
   resolveChallenge c accepted r.2 = (true, r.2)) ∧
  submissions r.2 = submissions s ∧
  verificationChains r.2 = verificationChains s ∧
  daoContract r.2 = daoContract s.
Proof.
  cbv zeta. unfold resolveChallenge.
  destruct (challenges s !! c) as [b|] eqn:Hc; simpl.
  - split; [done|]. split; [done|]. split; [done|]. split; [|done].
    intros _. split.
    + rewrite getPendingChallenges_elem_of. simpl.
      by rewrite lookup_insert_eq.
    + rewrite lookup_insert_eq. unfold set_challenges. simpl.
      by rewrite insert_insert_eq.
  - repeat split; try done.
Qed.

(** X27. A challenge is pending from [challengeVerification] on: for a known
    submission the call returns the id
    ["challenge_" + submission + "_" + time], which is then among
    [getPendingChallenges], and the submission keeps its level and count; for
    an unknown submission it returns the empty string and changes nothing. *)
Theorem challengeVerification_pending id challenger reason now s :
  let r := challengeVerification id challenger reason now s in
  (submissions s !! id = None → r = ("", s)) ∧
  (is_Some (submissions s !! id) →
   r.1 = "challenge_" +:+ id +:+ "_" +:+ to_string now ∧
   r.1 ∈ getPendingChallenges r.2 ∧
   submissions r.2 = submissions s ∧
   verificationChains r.2 = verificationChains s).
Proof.
  cbv zeta. unfold challengeVerification.
  destruct (submissions s !! id) as [sub|] eqn:Hsub; simpl.
  - split; [done|]. intros _. split; [done|]. split; [|done].
    rewrite getPendingChallenges_elem_of. simpl.
    by rewrite lookup_insert_eq.
  - split; [done|]. by intros [? ?].
Qed.

End OracleChallenges.

Section OracleStatistics.
Import Oracle.

Lemma step_verifications_counted o now n s :
  0 ≤ n → n + 1 < two64 →
  verifications_counted n s → verifications_counted (n + 1) (step o now s).
Proof.
  intros Hn Hb [Ha Ht].
  assert (Hkeep : verifications_counted (n + 1) s).
  { split; [done|lia]. }
  destruct o; simpl; try done.
  - unfold submitScore. by case_match.
  - unfold verifySubmission.
    destruct (submissions s !! submissionId); [|done].
    case_match; [done|]. unfold verifications_counted. simpl.
    unfold u64. rewrite !Z.mod_small by (destruct appr; lia).
    destruct appr; rewrite ?Z.mod_small by lia; lia.
  - unfold registerVerifier. by case_match.
  - unfold removeVerifier. by case_match.
  - unfold challengeVerification. by case_match.
  - unfold resolveChallenge. by case_match.
  - unfold registerWithDao. repeat case_match; done.
Qed.

Lemma run_verifications_counted ops n s :
  0 ≤ n → n + Z.of_nat (length ops) < two64 →
  verifications_counted n s →
  verifications_counted (n + Z.of_nat (length ops)) (run ops s).
Proof.
  revert n s. induction ops as [|[o now] ops IH]; intros n s Hn Hb Hs.
  - simpl. by rewrite Z.add_0_r.
  - simpl run. 
    replace (n + Z.of_nat (length ((o, now) :: ops)))
      with ((n + 1) + Z.of_nat (length ops)) in * by (simpl length; lia).
    apply IH; [lia|done|]. apply step_verifications_counted; [done|lia|done].
Qed.

(** X29. The acceptance rate is a percentage: after any sequence of fewer than
    2^64 / 100 operations from the constructor, the accepted verifications
    are among the verifications, and [getAcceptanceRate] is
    accepted * 100 / total without wrap-around, between 0 and 100 (and 0
    when nothing has been verified). *)
Theorem acceptance_rate_is_a_percentage dao ops (s := run ops (init dao))
    (Hlen : Z.of_nat (length ops) * 100 < two64) :
  0 ≤ acceptedVerifications s ≤ totalVerifications s ∧
  totalVerifications s ≤ Z.of_nat (length ops) ∧
  0 ≤ getAcceptanceRate s ≤ 100 ∧
  (totalVerifications s ≠ 0 →
   getAcceptanceRate s = acceptedVerifications s * 100 / totalVerifications s).
Proof.
  assert (Hc : verifications_counted (0 + Z.of_nat (length ops)) s).
  { apply run_verifications_counted; [done|lia|]. unfold init; split; simpl; lia. }
  rewrite Z.add_0_l in Hc. destruct Hc as [Ha Ht].
  split; [done|]. split; [done|].
  unfold getAcceptanceRate. destruct (Z.eqb_spec (totalVerifications s) 0) as [H0|H0].
  - split; [lia|done].
  - assert (Hq : 0 ≤ acceptedVerifications s * 100 / totalVerifications s ≤ 100).
    { split; [apply Z.div_pos; lia|]. apply Z.div_le_upper_bound; lia. }
    unfold u64. rewrite (Z.mod_small (_ * 100)) by lia.
    unfold u8, two8. rewrite Z.mod_small by lia. done.
Qed.

End OracleStatistics.

Section OracleRegistry.
Import Oracle.

(** X30. The oracle reaches the registry through [registerWithDao] only: a
    sequence of oracle operations without [registerWithDao] (and without
    calls made on the registry itself) leaves the registry and the ledger
    behind it as they were, whatever is submitted, verified or challenged. *)
Theorem only_registerWithDao_reaches_registry ops s
    (Hops : Forall (λ o, reaches_registry o.1 = false) ops) :
  daoContract (run ops s) = daoContract s.
Proof.
  revert s. induction Hops as [|[o now] ops Ho _ IH]; intros s; simpl; [done|].
  rewrite IH. destruct o; simpl in *; try done.
  - unfold submitScore. by case_match.
  - unfold verifySubmission. repeat case_match; done.
  - unfold registerVerifier. by case_match.
  - unfold removeVerifier. by case_match.
  - unfold challengeVerification. by case_match.
  - unfold resolveChallenge. by case_match.
Qed.

End OracleRegistry.

(** The theorems at concrete inputs. *)

Lemma merkle_root_is_the_scores_witness :
  let r := Oracle.submitScore "bob" 90 80 70 60 50 "" (replicate 32 0) 2
             (Oracle.fresh 0) in
  Oracle.getMerkleRoot r.2 r.1 = [90; 80; 70; 60; 50] ++ replicate 27 0.
Proof.
  exact (merkle_root_is_the_scores "bob" 90 80 70 60 50 "" (replicate 32 0) 2
           (Oracle.fresh 0) ltac:(lia) ltac:(lia) ltac:(lia) ltac:(lia)
           ltac:(lia)).
Defined.

Lemma forwarded_score_is_bounded_witness :
  let s := Oracle.run (example_setup ++ [approve_by_v])
             (Oracle.init (Dao.init (Token.init 0))) in
  let x' := Dao.getContributor
              (Oracle.daoContract (Oracle.registerWithDao "sub_bob_2" 5 s).2)
              "bob" in
  0 ≤ Dao.compositeScore x' ≤ 100 ∧
  (Dao.tier x' = RECOGNIZED ∨ Dao.tier x' = SILVER).
Proof.
  intros s x'.
  lazymatch eval vm_compute in (Oracle.submissions s !! "sub_bob_2") with
  | Some ?v => pose (sub := v)
  end.
  lazymatch eval vm_compute in
      (Dao.contributors (Oracle.daoContract s) !! "bob") with
  | Some ?v => pose (x := v)
  end.
  assert (Hsub : Oracle.submissions s !! "sub_bob_2" = Some sub)
    by (vm_compute; reflexivity).
  assert (Hx : Dao.contributors (Oracle.daoContract s)
                 !! Oracle.targetContributor sub = Some x)
    by (vm_compute; reflexivity).
  assert (Hok : (Oracle.registerWithDao "sub_bob_2" 5 s).1 = true)
    by (vm_compute; reflexivity).
  destruct (forwarded_score_is_bounded (Dao.init (Token.init 0))
              (example_setup ++ [approve_by_v]) "sub_bob_2" sub x 5
              Hsub Hx Hok) as (_ & H2 & _ & H4).
  exact (conj H2 H4).
Defined.

Lemma acceptance_rate_is_a_percentage_witness :
  let s := Oracle.run (example_setup ++ [approve_by_v; reject_by_v])
             (Oracle.init (Dao.init (Token.init 0))) in
  0 ≤ Oracle.acceptedVerifications s ≤ Oracle.totalVerifications s ∧
  Oracle.totalVerifications s ≤ 5 ∧
  0 ≤ Oracle.getAcceptanceRate s ≤ 100.
Proof.
  intros s.
  destruct (acceptance_rate_is_a_percentage (Dao.init (Token.init 0))
              (example_setup ++ [approve_by_v; reject_by_v])
              ltac:(vm_compute; reflexivity)) as (H1 & H2 & H3 & _).
  exact (conj H1 (conj H2 H3)).
Defined.

Lemma only_registerWithDao_reaches_registry_witness :
  let ops := [ (Oracle.RegisterVerifier "v", 1);
               (Oracle.SubmitScore "bob" 100 100 100 100 100 ""
                  (replicate 32 0), 2);
               approve_by_v; reject_by_v;
               (Oracle.ChallengeVerification "sub_bob_2" "carol" "why", 5) ] in
  Oracle.daoContract (Oracle.run ops (Oracle.fresh 0))
    = Oracle.daoContract (Oracle.fresh 0).
Proof.
  intros ops.
  apply (only_registerWithDao_reaches_registry ops (Oracle.fresh 0)).
  repeat constructor.
Defined.
